(** * src/ipc.js: request/response IPC over window.postMessage

    A shallow embedding of the [Server], the [Client] and [combineHandlers]
    of src/ipc.js, and the properties of the protocol they implement.

    Conventions of the embedding:
    - message payloads are structured-cloneable plain data ([val]); numbers
      are restricted to integers and strings to the characters of [string];
    - a handler call is observed through the value it returns or throws and,
      when it returns a promise, through the way that promise settles;
    - an asynchronous function is a [flow]: the effects it performs, in
      order, and the way the promise it returns settles;
    - the browser is a [World] of two windows with their 'message'
      listeners, the messages in flight between them and the promises made
      by [request]; a flow started by a delivered message runs to its end
      within that delivery. *)

From stdpp Require Import gmap strings list pretty.

Set Warnings "-register-all".
Open Scope string_scope.

(** ** Values *)

Inductive val : Type :=
| VUndefined
| VNull
| VBool (b : bool)
| VNum (n : Z)
| VStr (s : string)
| VArr (xs : list val)
| VObj (props : gmap string val).

(** What a [throw] or a rejected promise carries. *)
Inductive exn : Type :=
| TypeError (msg : string)
| Raised (reason : val).

(** The fate of a promise. *)
Inductive promise : Type :=
| Fulfilled (v : val)
| Rejected (e : exn)
| Pending.

(** What a handler call evaluates to: [?Promise<any>], or any other value. *)
Inductive hval : Type :=
| Plain (v : val)
| Promise (p : promise).

Definition NAMESPACE : string := "solid-auth-client".

(** ToBoolean. *)
Definition truthy (v : val) : bool :=
  match v with
  | VUndefined | VNull => false
  | VBool b => b
  | VNum n => negb (n =? 0)%Z
  | VStr s => negb (String.eqb s "")
  | VArr _ | VObj _ => true
  end.

(** [a && b]; [b] is only looked at when [a] is truthy. *)
Definition js_and (a b : val) : val := if truthy a then b else a.
Infix "&&&" := js_and (at level 40, left associativity).

(** The own property [k] of [o], when [o] is an object that has one. *)
Definition own (o : val) (k : string) : option val :=
  match o with
  | VObj props => props !! k
  | _ => None
  end.

(** The property read [o[k]] on a value that is neither [undefined] nor
    [null], for the keys this module reads ([NAMESPACE], [id], [method],
    [args], [ret]): no String, Number, Boolean or Array owns or inherits
    any of them, and Object.prototype has none of them either. *)
Definition get (o : val) (k : string) : val := default VUndefined (own o k).

(** [v === s] for a string [s]. *)
Definition strict_eq_str (v : val) (s : string) : bool :=
  match v with
  | VStr s' => bool_decide (s' = s)
  | _ => false
  end.

(** [v !== null]. *)
Definition not_null (v : hval) : bool :=
  match v with
  | Plain VNull => false
  | _ => true
  end.

(** The values the spread syntax [...v] iterates: arrays by element and
    strings by character. *)
Definition iterable (v : val) : bool :=
  match v with
  | VArr _ | VStr _ => true
  | _ => false
  end.

Fixpoint chars (s : string) : list val :=
  match s with
  | EmptyString => []
  | String c s' => VStr (String c EmptyString) :: chars s'
  end.

(** ** Windows, events and effects *)

(** The two browsing contexts: the one the Client runs in and the one the
    Server runs in. *)
Inductive window : Type := WinC | WinS.

Global Instance window_eq_dec : EqDecision window.
Proof. solve_decision. Defined.

Record MessageEvent : Type := mkEvent { data : val; origin : string }.

Inductive effect : Type :=
| Warn (msg : string)
| Invoke (h : nat) (method : val) (args : list val)
| PostMessage (target : window) (message : val) (targetOrigin : string)
| Uncaught (e : exn).

(** ** Flows: effects, then a result, an exception or a suspension that
    never resumes *)

Inductive outcome (A : Type) : Type :=
| Returned (a : A)
| Thrown (e : exn)
| Suspended.
Arguments Returned {A} a.
Arguments Thrown {A} e.
Arguments Suspended {A}.

Definition flow (A : Type) : Type := list effect * outcome A.

Global Instance flow_ret : MRet flow := fun A a => ([], Returned a).

Global Instance flow_bind : MBind flow := fun A B k m =>
  match m with
  | (es, Returned a) => let '(es', r) := k a in ((es ++ es')%list, r)
  | (es, Thrown e) => (es, Thrown e)
  | (es, Suspended) => (es, Suspended)
  end.

Definition emit (e : effect) : flow unit := ([e], Returned tt).
Definition throw {A} (e : exn) : flow A := ([], Thrown e).

(** [await v]. *)
Definition await (v : hval) : flow val :=
  match v with
  | Plain v => mret v
  | Promise (Fulfilled v) => mret v
  | Promise (Rejected e) => throw e
  | Promise Pending => ([], Suspended)
  end.

(** The argument list of [f(...v)]. *)
Definition spread (v : val) : flow (list val) :=
  match v with
  | VArr xs => mret xs
  | VStr s => mret (chars s)
  | _ => throw (TypeError "args is not iterable")
  end.

(** [xs.find(p)]: the first element that satisfies [p], if any. *)
Definition find {A} (p : A → bool) (xs : list A) : option A :=
  head (filter (λ x, p x = true) xs).

(** ** Handlers *)

Definition handler : Type := val → list val → flow hval.

(** What one call of an external handler does: return or throw. *)
Inductive completion : Type :=
| Normal (r : hval)
| Abrupt (e : exn).

Definition behaviour : Type := val → list val → completion.

(** The external handler number [h], whose calls are recorded. *)
Definition spy (h : nat) (f : behaviour) : handler := λ method args,
  emit (Invoke h method args) ;;
  match f method args with
  | Normal r => mret r
  | Abrupt e => throw e
  end.

(** ** Server *)

Record Server : Type := mkServer {
  _clientWindow : window;
  _clientOrigin : string;
  _handler : handler
}.

Definition warning (clientOrigin origin : string) : string :=
  "solid-auth-client is listening to " ++ clientOrigin ++ " " ++
  "so ignored a message received from " ++ origin ++ ".".

Definition response (id ret : val) : val :=
  VObj {[ NAMESPACE := VObj (<["id" := id]> {[ "ret" := ret ]}) ]}.

Definition _handleMessage (this : Server) (ev : MessageEvent) : flow unit :=
  let '(mkEvent data origin) := ev in
  if decide (origin ≠ _clientOrigin this) then
    emit (Warn (warning (_clientOrigin this) origin))
  else
    let req := data &&& get data NAMESPACE in
    if truthy (req &&& get req "method") then
      let id := get req "id" in
      let method := get req "method" in
      let args := get req "args" in
      argv ← spread args;
      r ← _handler this method argv;
      ret ← await r;
      emit (PostMessage (_clientWindow this) (response id ret)
              (_clientOrigin this))
    else mret tt.

(** ** combineHandlers *)

Definition combineHandlers (handlers : list handler) : handler :=
  λ method args,
    promises ← mapM (λ handler : handler, handler method args) handlers;
    mret (default (Plain VUndefined) (find not_null promises)).

(** ** Client *)

Record Client : Type := mkClient {
  _serverWindow : window;
  _serverOrigin : string
}.

(** [{ id, method, args }] and the envelope that carries it. *)
Definition request_fields (id : string) (method : string) (args : list val)
    : val :=
  VObj (<["id" := VStr id]> (<["method" := VStr method]>
          {[ "args" := VArr args ]})).

Definition request_envelope (id : string) (method : string) (args : list val)
    : val :=
  VObj {[ NAMESPACE := request_fields id method args ]}.

(** The method call [o.hasOwnProperty(k)] on a truthy [o] and for [k] the
    key [ret]: the method is looked up on [o] first, where an own property
    of that name hides the one of Object.prototype; no [val] is callable. *)
Definition hasOwnProperty (o : val) (k : string) : exn + bool :=
  match own o "hasOwnProperty" with
  | Some _ => inl (TypeError "resp.hasOwnProperty is not a function")
  | None => inr (bool_decide (is_Some (own o k)))
  end.

(** A registered 'message' listener: the Server's [_messageListener], or
    the [responseListener] closure of one [request] call, which captures
    the call's [id] and the [resolve] of the promise it returned. *)
Inductive listener : Type :=
| OfServer (server : Server)
| OfRequest (id : string) (resolve : nat).

(** ** The two windows and the transport between them *)

Record World : Type := mkWorld {
  origins : window → string;
  uuid : nat → string;
  generated : nat;
  listeners : list (window * listener);
  tasks : list (window * MessageEvent);
  promises : list (option val);
  trace : list effect
}.

Definition log (e : effect) (w : World) : World :=
  mkWorld (origins w) (uuid w) (generated w) (listeners w) (tasks w)
    (promises w) (trace w ++ [e]).

Definition enqueue (target : window) (ev : MessageEvent) (w : World) : World :=
  mkWorld (origins w) (uuid w) (generated w) (listeners w)
    (tasks w ++ [(target, ev)]) (promises w) (trace w).

Definition set_tasks (ts : list (window * MessageEvent)) (w : World) : World :=
  mkWorld (origins w) (uuid w) (generated w) (listeners w) ts
    (promises w) (trace w).

(** [uuid()]. *)
Definition uuid_v4 (w : World) : string * World :=
  (uuid w (generated w),
   mkWorld (origins w) (uuid w) (S (generated w)) (listeners w) (tasks w)
     (promises w) (trace w)).

(** [target.postMessage(message, targetOrigin)], called in window [self]:
    the event is queued for [target] when [targetOrigin] is its origin or
    the wildcard, and it declares the origin of [self]. *)
Definition postMessage (self target : window) (message : val)
    (targetOrigin : string) (w : World) : World :=
  let w := log (PostMessage target message targetOrigin) w in
  if bool_decide (targetOrigin = "*" ∨ targetOrigin = origins w target)
  then enqueue target (mkEvent message (origins w self)) w
  else w.

(** [window.addEventListener('message', l)] in window [self]. *)
Definition addEventListener (self : window) (l : listener) (w : World)
    : World :=
  mkWorld (origins w) (uuid w) (generated w) (listeners w ++ [(self, l)])
    (tasks w) (promises w) (trace w).

(** Whether a registration is the [responseListener] closure of promise [p]
    in window [self]. *)
Definition is_closure (self : window) (p : nat) (r : window * listener)
    : bool :=
  match r with
  | (t, OfRequest _ q) => bool_decide (t = self ∧ q = p)
  | _ => false
  end.

(** [window.removeEventListener('message', responseListener)]. *)
Definition removeEventListener (self : window) (p : nat) (w : World)
    : World :=
  mkWorld (origins w) (uuid w) (generated w)
    (filter (λ r, is_closure self p r = false) (listeners w))
    (tasks w) (promises w) (trace w).

(** [new Promise(...)]: a pending promise, named by its position. *)
Definition new_Promise (w : World) : nat * World :=
  (length (promises w),
   mkWorld (origins w) (uuid w) (generated w) (listeners w) (tasks w)
     (promises w ++ [None]) (trace w)).

(** [resolve(v)]: settles a pending promise and leaves a settled one. *)
Definition resolve (p : nat) (v : val) (w : World) : World :=
  match promises w !! p with
  | Some None =>
      mkWorld (origins w) (uuid w) (generated w) (listeners w) (tasks w)
        (<[p := Some v]> (promises w)) (trace w)
  | _ => w
  end.

Definition responseListener (self : window) (id : string) (p : nat)
    (ev : MessageEvent) (w : World) : World :=
  let resp := data ev &&& get (data ev) NAMESPACE in
  if truthy resp && strict_eq_str (get resp "id") id then
    match hasOwnProperty resp "ret" with
    | inr true => removeEventListener self p (resolve p (get resp "ret") w)
    | inr false => w
    | inl e => log (Uncaught e) w
    end
  else w.

Definition request (self : window) (this : Client) (method : string)
    (args : list val) (w : World) : nat * World :=
  let '(id, w) := uuid_v4 w in
  let w := postMessage self (_serverWindow this)
             (request_envelope id method args) (_serverOrigin this) w in
  let '(p, w) := new_Promise w in
  (p, addEventListener self (OfRequest id p) w).

(** ** Event dispatch *)

Definition perform (self : window) (w : World) (e : effect) : World :=
  match e with
  | PostMessage target message targetOrigin =>
      postMessage self target message targetOrigin w
  | _ => log e w
  end.

(** An asynchronous flow started in window [self]; nothing awaits the
    promise it returns, so a rejection is reported and lost.  The flow is
    performed in one piece: the model does not interleave the part after
    [await] with other listeners. *)
Definition perform_flow (self : window) (f : flow unit) (w : World) : World :=
  let w := foldl (perform self) w f.1 in
  match f.2 with
  | Thrown e => log (Uncaught e) w
  | _ => w
  end.

Definition call_listener (self : window) (ev : MessageEvent) (w : World)
    (l : listener) : World :=
  match l with
  | OfServer server => perform_flow self (_handleMessage server ev) w
  | OfRequest id p => responseListener self id p ev w
  end.

(** The listeners of [target], as registered when the dispatch starts. *)
Definition listening (target : window) (w : World) : list listener :=
  (filter (λ r, r.1 = target) (listeners w)).*2.

Definition dispatch (target : window) (ev : MessageEvent) (w : World)
    : World :=
  foldl (call_listener target ev) w (listening target w).

(** One turn of the event loop: the oldest posted message is delivered. *)
Definition step (w : World) : World :=
  match tasks w with
  | [] => w
  | (target, ev) :: rest => dispatch target ev (set_tasks rest w)
  end.

Fixpoint run (n : nat) (w : World) : World :=
  match n with
  | O => w
  | S n' => run n' (step w)
  end.

(** [start()], called in window [self]: [_messageListener] is registered.
    ([stop()] removes it again; the properties below are about started
    Servers and do not involve it.) *)
Definition start (self : window) (this : Server) (w : World) : World :=
  addEventListener self (OfServer this) w.

(** Two windows with their origins, and a Server started in [WinS]:
    nothing else is registered, in flight or pending. *)
Definition boot (originC originS : string) (ids : nat → string)
    (server : Server) : World :=
  start WinS server
    (mkWorld (λ t, match t with WinC => originC | WinS => originS end)
       ids 0 [] [] [] []).

(** Whether a trace shows a call of a handler, or a posted message. *)
Definition is_invoke (e : effect) : bool :=
  match e with Invoke _ _ _ => true | _ => false end.
Definition is_post (e : effect) : bool :=
  match e with PostMessage _ _ _ => true | _ => false end.

(** A handler that answers [echo] with its arguments. *)
Definition echo : behaviour :=
  λ _ args, Normal (Promise (Fulfilled (VArr args))).

(** Several external handlers, each with the number its calls are recorded
    under, and the record of one call of each, in order. *)
Definition spies (hs : list (nat * behaviour)) : list handler :=
  map (λ hf, spy hf.1 hf.2) hs.

Definition calls (hs : list (nat * behaviour)) (method : val)
    (args : list val) : list effect :=
  map (λ hf, Invoke hf.1 method args) hs.

(** [r] is the first of [rs], in order, that is not [null]. *)
Definition first_non_null (rs : list hval) (r : hval) : Prop :=
  ∃ i, rs !! i = Some r ∧ r ≠ Plain VNull ∧
       ∀ j, (j < i)%nat → rs !! j = Some (Plain VNull).

(** The promise a registered listener resolves, when it is a closure of
    [request]. *)
Definition handle_of (r : window * listener) : option nat :=
  match r.2 with
  | OfRequest _ q => Some q
  | OfServer _ => None
  end.

(** Registrations made before the promise [P] was: Servers, and closures
    of earlier promises. *)
Definition older (P : nat) (r : window * listener) : Prop :=
  ∀ q, handle_of r = Some q → (q < P)%nat.

(** Closures of promise [P] or of a later one. *)
Definition newer (P : nat) (r : window * listener) : Prop :=
  ∃ q, handle_of r = Some q ∧ (P ≤ q)%nat.

(** Every registered closure resolves a promise that was made. *)
Definition well_formed (w : World) : Prop :=
  Forall (older (length (promises w))) (listeners w).

(** What the listeners registered before promise [P] may do to a world
    whose later registrations are [T]: they leave [T] registered and the
    promises from [P] on as they are. *)
Definition framed (P : nat) (T : list (window * listener)) (w w' : World)
    : Prop :=
  (∃ L', listeners w' = (L' ++ T)%list ∧ Forall (older P) L') ∧
  length (promises w') = length (promises w) ∧
  ∀ j, (P ≤ j)%nat → promises w' !! j = promises w !! j.

(** The message is a completed response to the call [id]: its payload has
    the namespace key, and the value under it has [id] for its [id] and
    owns a [ret]. *)
Definition answers (id : string) (ev : MessageEvent) (ret : val) : Prop :=
  ∃ resp, own (data ev) NAMESPACE = Some resp ∧
          own resp "id" = Some (VStr id) ∧ own resp "ret" = Some ret.

(** A flow that called no handler, posted nothing and did not throw. *)
Definition no_call (f : flow unit) : Prop :=
  Forall (λ e, is_invoke e = false) f.1.
Definition no_post (f : flow unit) : Prop :=
  Forall (λ e, is_post e = false) f.1.
Definition no_throw (f : flow unit) : Prop := ∀ e, f.2 ≠ Thrown e.

(** Messages delivered one after the other, each to its window. *)
Definition deliver (evs : list (window * MessageEvent)) (w : World) : World :=
  foldl (λ w te, dispatch te.1 te.2 w) w evs.

(** The call with promise [P] and id [id], made in window [self], is
    still waiting: its listener is the last one registered, behind older
    ones, and its promise is pending. *)
Definition awaiting (P : nat) (self : window) (id : string) (w : World)
    : Prop :=
  (∃ L, listeners w = (L ++ [(self, OfRequest id P)])%list ∧
        Forall (older P) L) ∧
  promises w !! P = Some None.

(** * Properties *)

(** ** Values and flows *)

Lemma truthy_js_and (a b : val) : truthy (a &&& b) = truthy a && truthy b.
Proof. unfold js_and. destruct (truthy a) eqn:Ha; simpl; auto. Qed.

Lemma own_Some_truthy (o : val) (k : string) (v : val) :
  own o k = Some v → truthy o = true.
Proof. destruct o; simpl; congruence. Qed.

Lemma get_own (o : val) (k : string) (v : val) : own o k = Some v → get o k = v.
Proof. unfold get. now intros ->. Qed.

Lemma get_absent (o : val) (k : string) : own o k = None → get o k = VUndefined.
Proof. unfold get. now intros ->. Qed.

Lemma truthy_get_own (o : val) (k : string) :
  truthy (get o k) = true → ∃ v, own o k = Some v ∧ truthy v = true.
Proof.
  unfold get. destruct (own o k) as [v|]; simpl; [eauto | discriminate].
Qed.

Lemma js_and_own (o : val) (k : string) (v : val) :
  own o k = Some v → o &&& get o k = v.
Proof.
  intros H. unfold js_and. rewrite (own_Some_truthy _ _ _ H).
  now apply get_own.
Qed.

Lemma js_and_absent_falsy (o : val) (k : string) :
  own o k = None → truthy (o &&& get o k) = false.
Proof.
  intros H. rewrite truthy_js_and, (get_absent _ _ H). simpl.
  apply andb_false_r.
Qed.

Lemma bind_ret_l {A B} (a : A) (k : A → flow B) : mret a ≫= k = k a.
Proof. unfold mbind, flow_bind, mret, flow_ret. now destruct (k a). Qed.

Lemma bind_effects {A B} (es : list effect) (a : A) (k : A → flow B) :
  (es, Returned a) ≫= k = ((es ++ (k a).1)%list, (k a).2).
Proof. unfold mbind, flow_bind. now destruct (k a). Qed.

Lemma spread_iterable (v : val) :
  iterable v = false → ∃ msg, spread v = throw (TypeError msg).
Proof. destruct v; simpl; try discriminate; eauto. Qed.

(** ** Server._handleMessage *)

Section HandleMessage.
Variable this : Server.
Variable ev : MessageEvent.

Lemma handleMessage_foreign :
  origin ev ≠ _clientOrigin this →
  _handleMessage this ev =
  emit (Warn (warning (_clientOrigin this) (origin ev))).
Proof.
  intros H. unfold _handleMessage. destruct ev as [d o]; simpl in *.
  now destruct (decide (o ≠ _clientOrigin this)).
Qed.

Lemma handleMessage_authorized :
  origin ev = _clientOrigin this →
  _handleMessage this ev =
  let req := data ev &&& get (data ev) NAMESPACE in
  if truthy (req &&& get req "method") then
    argv ← spread (get req "args");
    r ← _handler this (get req "method") argv;
    ret ← await r;
    emit (PostMessage (_clientWindow this) (response (get req "id") ret)
            (_clientOrigin this))
  else mret tt.
Proof.
  intros H. unfold _handleMessage. destruct ev as [d o]; simpl in *.
  destruct (decide (o ≠ _clientOrigin this)); [contradiction | reflexivity].
Qed.

Lemma handleMessage_not_a_request :
  origin ev = _clientOrigin this →
  (own (data ev) NAMESPACE = None ∨
   ∃ req, own (data ev) NAMESPACE = Some req ∧ own req "method" = None) →
  _handleMessage this ev = mret tt.
Proof.
  intros Ho H. rewrite (handleMessage_authorized Ho). cbv zeta.
  destruct H as [H | (req & H & Hm)].
  - rewrite truthy_js_and, (js_and_absent_falsy _ _ H). reflexivity.
  - rewrite (js_and_own _ _ _ H), (js_and_absent_falsy _ _ Hm). reflexivity.
Qed.

Lemma handleMessage_request (req : val) :
  origin ev = _clientOrigin this →
  own (data ev) NAMESPACE = Some req →
  truthy (get req "method") = true →
  _handleMessage this ev =
    argv ← spread (get req "args");
    r ← _handler this (get req "method") argv;
    ret ← await r;
    emit (PostMessage (_clientWindow this) (response (get req "id") ret)
            (_clientOrigin this)).
Proof.
  intros Ho H Hm. rewrite (handleMessage_authorized Ho). cbv zeta.
  rewrite (js_and_own _ _ _ H), truthy_js_and, Hm.
  destruct (truthy_get_own _ _ Hm) as (m & Hown & _).
  now rewrite (own_Some_truthy _ _ _ Hown).
Qed.

(** A request whose handler call comes to a value is answered with it,
    under the request's own [id]... *)
Lemma handleMessage_reply (req : val) (argv : list val) (es : list effect)
    (r : hval) (v : val) :
  origin ev = _clientOrigin this →
  own (data ev) NAMESPACE = Some req →
  truthy (get req "method") = true →
  spread (get req "args") = mret argv →
  _handler this (get req "method") argv = (es, Returned r) →
  await r = mret v →
  _handleMessage this ev =
    ((es ++ [PostMessage (_clientWindow this) (response (get req "id") v)
               (_clientOrigin this)])%list, Returned tt).
Proof.
  intros Ho H Hm Hs Hh Hr. rewrite (handleMessage_request req Ho H Hm).
  now rewrite Hs, bind_ret_l, Hh, bind_effects, Hr, bind_ret_l.
Qed.

(** ... and one whose handler call fails is not answered at all. *)
Lemma handleMessage_fault (req : val) (argv : list val) (es : list effect)
    (e : exn) :
  origin ev = _clientOrigin this →
  own (data ev) NAMESPACE = Some req →
  truthy (get req "method") = true →
  spread (get req "args") = mret argv →
  _handler this (get req "method") argv = (es, Thrown e) ∨
  _handler this (get req "method") argv
    = (es, Returned (Promise (Rejected e))) →
  _handleMessage this ev = (es, Thrown e).
Proof.
  intros Ho H Hm Hs Hh. rewrite (handleMessage_request req Ho H Hm).
  rewrite Hs, bind_ret_l. destruct Hh as [-> | ->]; [reflexivity |].
  rewrite bind_effects. simpl. now rewrite app_nil_r.
Qed.
End HandleMessage.

(** C2: a message whose declared origin is not, as a string, the Server's
    configured client origin makes [_handleMessage] do one thing only: warn,
    naming the configured origin and the observed one.  Whatever the handler
    would do when called, it is not called, and nothing is posted. *)
Theorem foreign_origin_only_warned (this : Server) (ev : MessageEvent) :
  origin ev ≠ _clientOrigin this →
  _handleMessage this ev =
    ([Warn ("solid-auth-client is listening to " ++ _clientOrigin this ++
            " so ignored a message received from " ++ origin ev ++ ".")],
     Returned tt)
  ∧ no_call (_handleMessage this ev) ∧ no_post (_handleMessage this ev).
Proof.
  intros H. rewrite (handleMessage_foreign _ _ H).
  split; [reflexivity | split; repeat constructor].
Qed.

Lemma foreign_origin_only_warned_witness :
  let this := mkServer WinC "https://app.example" (spy 0 echo) in
  let ev := mkEvent (request_envelope "7" "echo" [VNum 1])
              "https://evil.example" in
  origin ev ≠ _clientOrigin this ∧
  _handleMessage this ev =
    ([Warn ("solid-auth-client is listening to https://app.example" ++
            " so ignored a message received from https://evil.example.")],
     Returned tt).
Proof.
  intros this ev.
  assert (H : origin ev ≠ _clientOrigin this) by (simpl; discriminate).
  split; [exact H | exact (proj1 (foreign_origin_only_warned this ev H))].
Defined.

(** C3, as stated, fails: a request without an [id] still reaches the
    handler, and a response with [id: undefined] is posted. *)
Lemma missing_id_still_handled :
  let this := mkServer WinC "https://app.example" (spy 0 echo) in
  let ev := mkEvent
    (VObj {[ NAMESPACE :=
       VObj (<["method" := VStr "echo"]> {[ "args" := VArr [VNum 1] ]}) ]})
    "https://app.example" in
  origin ev = _clientOrigin this ∧
  (∃ req, own (data ev) NAMESPACE = Some req ∧ own req "id" = None) ∧
  _handleMessage this ev =
    ([Invoke 0 (VStr "echo") [VNum 1];
      PostMessage WinC (response VUndefined (VArr [VNum 1]))
        "https://app.example"], Returned tt) ∧
  ¬ no_call (_handleMessage this ev).
Proof.
  intros this ev. split; [reflexivity |]. split.
  { eexists. split; [reflexivity | reflexivity]. }
  assert (E : _handleMessage this ev =
    ([Invoke 0 (VStr "echo") [VNum 1];
      PostMessage WinC (response VUndefined (VArr [VNum 1]))
        "https://app.example"], Returned tt)) by (vm_compute; reflexivity).
  split; [exact E |].
  rewrite E. unfold no_call. simpl. intros H.
  apply Forall_cons in H as [H _]. discriminate H.
Qed.

(** C3, amended: with the origin matching, a payload without the namespace
    key, or whose namespaced value has no [method], is ignored: the flow
    performs nothing (no call, no post, no diagnostic) and returns.  The
    [id] is not looked at. *)
Theorem not_a_request_ignored (this : Server) (ev : MessageEvent) :
  origin ev = _clientOrigin this →
  (own (data ev) NAMESPACE = None ∨
   ∃ req, own (data ev) NAMESPACE = Some req ∧ own req "method" = None) →
  _handleMessage this ev = ([], Returned tt)
  ∧ no_call (_handleMessage this ev) ∧ no_throw (_handleMessage this ev).
Proof.
  intros Ho H. rewrite (handleMessage_not_a_request _ _ Ho H).
  split; [reflexivity | split; [constructor | intros e; discriminate]].
Qed.

Lemma not_a_request_ignored_witness :
  let this := mkServer WinC "https://app.example" (spy 0 echo) in
  let ev := mkEvent (response (VStr "7") (VNum 1)) "https://app.example" in
  _handleMessage this ev = ([], Returned tt).
Proof.
  intros this ev.
  refine (proj1 (not_a_request_ignored this ev eq_refl _)).
  right. eexists. split; reflexivity.
Defined.

(** C9: with the origin matching and a truthy [method], an [args] that is
    absent or not iterable makes the flow fail with a TypeError before any
    effect: the handler is not called and nothing is posted. *)
Theorem args_not_iterable_throws (this : Server) (ev : MessageEvent)
    (req : val) :
  origin ev = _clientOrigin this →
  own (data ev) NAMESPACE = Some req →
  truthy (get req "method") = true →
  (own req "args" = None ∨
   ∃ a, own req "args" = Some a ∧ iterable a = false) →
  ∃ msg, _handleMessage this ev = ([], Thrown (TypeError msg)).
Proof.
  intros Ho H Hm Ha. rewrite (handleMessage_request _ _ req Ho H Hm).
  assert (Hi : iterable (get req "args") = false).
  { destruct Ha as [Ha | (a & Ha & Hi)].
    - now rewrite (get_absent _ _ Ha).
    - now rewrite (get_own _ _ _ Ha). }
  destruct (spread_iterable _ Hi) as [msg ->]. exists msg. reflexivity.
Qed.

Lemma args_not_iterable_throws_witness :
  let this := mkServer WinC "https://app.example" (spy 0 echo) in
  let ev := mkEvent
    (VObj {[ NAMESPACE :=
       VObj (<["id" := VStr "7"]> {[ "method" := VStr "echo" ]}) ]})
    "https://app.example" in
  ∃ msg, _handleMessage this ev = ([], Thrown (TypeError msg)).
Proof.
  intros this ev.
  refine (args_not_iterable_throws this ev _ eq_refl eq_refl eq_refl _).
  left. reflexivity.
Defined.

(** ** combineHandlers *)

Lemma find_cons {A} (p : A → bool) (x : A) (xs : list A) :
  find p (x :: xs) = if p x then Some x else find p xs.
Proof.
  unfold find. rewrite filter_cons.
  destruct (decide (p x = true)) as [-> | H]; [reflexivity |].
  now apply not_true_is_false in H as ->.
Qed.


Lemma find_after_nulls (pre post : list hval) (r : hval) :
  Forall (λ r, r = Plain VNull) pre → not_null r = true →
  find not_null (pre ++ r :: post) = Some r.
Proof.
  intros Hpre Hr. induction Hpre as [| x pre -> _ IH]; simpl.
  - now rewrite find_cons, Hr.
  - now rewrite find_cons.
Qed.

Lemma not_null_spec (r : hval) : not_null r = true ↔ r ≠ Plain VNull.
Proof.
  destruct r as [[]|]; simpl; split; try congruence; try discriminate;
    intros H; try reflexivity; now contradiction H.
Qed.

(** What [find] selects, in the words of its contract. *)
Lemma find_first_non_null (rs : list hval) :
  match find not_null rs with
  | Some r => first_non_null rs r
  | None => Forall (λ r, r = Plain VNull) rs
  end.
Proof.
  induction rs as [| x rs IH]; [constructor |].
  rewrite find_cons. destruct (not_null x) eqn:Hx.
  - exists 0. split; [reflexivity |]. split; [now apply not_null_spec |].
    intros j Hj. lia.
  - assert (x = Plain VNull) as -> by (now destruct x as [[]|]).
    destruct (find not_null rs) as [r|].
    + destruct IH as (i & Hi & Hr & Hlt). exists (S i).
      split; [exact Hi |]. split; [exact Hr |].
      intros [| j] Hj; [reflexivity | apply Hlt; lia].
    + now constructor.
Qed.

(** Every handler is called, in order, with the same method and arguments,
    and [map] collects what they return. *)
Lemma map_spies (hs : list (nat * behaviour)) (rs : list hval)
    (method : val) (args : list val) :
  Forall2 (λ hf r, hf.2 method args = Normal r) hs rs →
  mapM (λ handler : handler, handler method args) (spies hs) =
  (calls hs method args, Returned rs).
Proof.
  induction 1 as [| [h f] r hs rs Hf _ IH]; [reflexivity |].
  simpl in *. rewrite IH. unfold spy. rewrite Hf.
  unfold emit. rewrite !bind_effects. simpl. now rewrite app_nil_r.
Qed.

Lemma combineHandlers_spies (hs : list (nat * behaviour)) (rs : list hval)
    (method : val) (args : list val) :
  Forall2 (λ hf r, hf.2 method args = Normal r) hs rs →
  combineHandlers (spies hs) method args =
  (calls hs method args,
   Returned (default (Plain VUndefined) (find not_null rs))).
Proof.
  intros H. unfold combineHandlers. rewrite (map_spies _ _ _ _ H).
  rewrite bind_effects. simpl. now rewrite app_nil_r.
Qed.

(** A handler that throws ends the [map]: the combined call throws and the
    handlers after it are not called.  The handler interface is to return
    [null] or a promise, which is what the properties below assume. *)
Lemma combineHandlers_throw (h : nat) (f : behaviour) (hs : list handler)
    (method : val) (args : list val) (e : exn) :
  f method args = Abrupt e →
  combineHandlers (spy h f :: hs) method args =
  ([Invoke h method args], Thrown e).
Proof.
  intros H. unfold combineHandlers. simpl. unfold spy. now rewrite H.
Qed.

(** C5: when each handler returns (the null sentinel, a promise, or any
    value), the combined handler calls all of them, in order, with the same
    method and arguments, and returns the first result that is not [null],
    or [undefined] when all are [null].  So a [null] followed by a promise
    of "ok" gives that promise, and two [null]s give [undefined], returned,
    not thrown. *)
Theorem combineHandlers_first_non_null (hs : list (nat * behaviour))
    (rs : list hval) (method : val) (args : list val) :
  Forall2 (λ hf r, hf.2 method args = Normal r) hs rs →
  ∃ r, combineHandlers (spies hs) method args =
         (calls hs method args, Returned r)
     ∧ (first_non_null rs r
        ∨ Forall (λ r, r = Plain VNull) rs ∧ r = Plain VUndefined)
     ∧ (rs = [Plain VNull; Promise (Fulfilled (VStr "ok"))] →
        r = Promise (Fulfilled (VStr "ok")) ∧ await r = mret (VStr "ok"))
     ∧ (rs = [Plain VNull; Plain VNull] → r = Plain VUndefined).
Proof.
  intros H. eexists. split; [exact (combineHandlers_spies _ _ _ _ H) |].
  split; [| split].
  - pose proof (find_first_non_null rs) as F.
    destruct (find not_null rs) as [r|]; simpl; [left | right]; auto.
  - intros ->. split; reflexivity.
  - intros ->. reflexivity.
Qed.

Lemma combineHandlers_first_non_null_witness :
  let h1 : behaviour := λ _ _, Normal (Plain VNull) in
  let h2 : behaviour := λ _ _, Normal (Promise (Fulfilled (VStr "ok"))) in
  ∃ r, combineHandlers [spy 1 h1; spy 2 h2] (VStr "m") [VNum 5] =
         ([Invoke 1 (VStr "m") [VNum 5]; Invoke 2 (VStr "m") [VNum 5]],
          Returned r)
       ∧ r = Promise (Fulfilled (VStr "ok")).
Proof.
  intros h1 h2.
  destruct (combineHandlers_first_non_null [(1, h1); (2, h2)]
              [Plain VNull; Promise (Fulfilled (VStr "ok"))]
              (VStr "m") [VNum 5]) as (r & E & _ & Hok & _).
  { repeat constructor. }
  exists r. split; [exact E | exact (proj1 (Hok eq_refl))].
Defined.

(** C10: the selection tests [!== null] only.  When the handlers before
    one that returns [undefined] return [null], the combined handler
    returns [undefined], whatever the later handlers return; all of them
    were called all the same. *)
Theorem undefined_is_selected (pre post : list (nat * behaviour))
    (h : nat) (f : behaviour) (rs : list hval) (method : val)
    (args : list val) :
  Forall (λ hf, hf.2 method args = Normal (Plain VNull)) pre →
  f method args = Normal (Plain VUndefined) →
  Forall2 (λ hf r, hf.2 method args = Normal r) post rs →
  combineHandlers (spies (pre ++ (h, f) :: post)) method args =
  (calls (pre ++ (h, f) :: post) method args, Returned (Plain VUndefined)).
Proof.
  intros Hpre Hf Hpost.
  assert (H : Forall2 (λ hf r, hf.2 method args = Normal r)
                (pre ++ (h, f) :: post)
                (replicate (length pre) (Plain VNull)
                   ++ Plain VUndefined :: rs)).
  { apply Forall2_app; [| now constructor].
    clear -Hpre. induction Hpre; simpl; constructor; auto. }
  rewrite (combineHandlers_spies _ _ _ _ H).
  rewrite find_after_nulls; [reflexivity | | reflexivity].
  clear. induction (length pre); simpl; constructor; auto.
Qed.

Lemma undefined_is_selected_witness :
  let h1 : behaviour := λ _ _, Normal (Plain VUndefined) in
  let h2 : behaviour := λ _ _, Normal (Promise (Fulfilled (VStr "ok"))) in
  combineHandlers [spy 1 h1; spy 2 h2] (VStr "m") [] =
    ([Invoke 1 (VStr "m") []; Invoke 2 (VStr "m") []],
     Returned (Plain VUndefined)).
Proof.
  intros h1 h2.
  apply (undefined_is_selected [] [(2, h2)] 1 h1
           [Promise (Fulfilled (VStr "ok"))] (VStr "m") []).
  - constructor.
  - reflexivity.
  - repeat constructor.
Defined.

(** ** The transport and the event loop *)

Lemma get_request_fields (id method : string) (args : list val) :
  get (request_fields id method args) "id" = VStr id ∧
  get (request_fields id method args) "method" = VStr method ∧
  get (request_fields id method args) "args" = VArr args.
Proof. repeat split. Qed.

Lemma own_response (id ret : val) :
  own (response id ret) NAMESPACE =
  Some (VObj (<["id" := id]> {[ "ret" := ret ]})).
Proof. reflexivity. Qed.

(** What the Server does with an envelope as [request] builds it. *)
Lemma handleMessage_envelope (this : Server) (id method : string)
    (args : list val) :
  method ≠ "" →
  _handleMessage this
    (mkEvent (request_envelope id method args) (_clientOrigin this)) =
  r ← _handler this (VStr method) args;
  ret ← await r;
  emit (PostMessage (_clientWindow this) (response (VStr id) ret)
          (_clientOrigin this)).
Proof.
  intros Hm.
  destruct (get_request_fields id method args) as (Hi & Hme & Ha).
  rewrite (handleMessage_request this
             (mkEvent (request_envelope id method args) (_clientOrigin this))
             (request_fields id method args) eq_refl eq_refl).
  - rewrite Hi, Hme, Ha. simpl spread. now rewrite bind_ret_l.
  - rewrite Hme. simpl.
    destruct (String.eqb_spec method ""); [contradiction | reflexivity].
Qed.

(** What a [responseListener] does with a response as the Server builds
    it: its own, and another call's. *)
Lemma responseListener_response (self : window) (id : string) (p : nat)
    (ret : val) (o : string) (w : World) :
  responseListener self id p (mkEvent (response (VStr id) ret) o) w =
  removeEventListener self p (resolve p ret w).
Proof.
  unfold responseListener. simpl.
  rewrite (js_and_own _ _ _ (own_response (VStr id) ret)).
  change (get (VObj (<["id" := VStr id]> {[ "ret" := ret ]})) "id")
    with (VStr id).
  simpl. now rewrite bool_decide_eq_true_2 by reflexivity.
Qed.

Lemma responseListener_other (self : window) (id id' : string) (p : nat)
    (ret : val) (o : string) (w : World) :
  id' ≠ id →
  responseListener self id p (mkEvent (response (VStr id') ret) o) w = w.
Proof.
  intros H. unfold responseListener. simpl.
  rewrite (js_and_own _ _ _ (own_response (VStr id') ret)).
  change (get (VObj (<["id" := VStr id']> {[ "ret" := ret ]})) "id")
    with (VStr id').
  simpl. now rewrite bool_decide_eq_false_2.
Qed.

Lemma perform_silent (self : window) (es : list effect) (w : World) :
  Forall (λ e, is_post e = false) es →
  foldl (perform self) w es =
  mkWorld (origins w) (uuid w) (generated w) (listeners w) (tasks w)
    (promises w) (trace w ++ es).
Proof.
  intros H. revert w. induction H as [| e es He _ IH]; intros w; simpl.
  - rewrite app_nil_r. now destruct w.
  - rewrite IH. destruct e; try discriminate; simpl; now rewrite <- app_assoc.
Qed.

Lemma calls_silent (hs : list (nat * behaviour)) (method : val)
    (args : list val) :
  Forall (λ e, is_post e = false) (calls hs method args).
Proof. induction hs; simpl; constructor; auto. Qed.

(** With no message in flight the event loop has nothing to do. *)
Lemma run_quiescent (n : nat) (w : World) : tasks w = [] → run n w = w.
Proof.
  intros H. induction n as [| n IH]; [reflexivity |].
  simpl. unfold step. now rewrite H.
Qed.

(** ** One request from the Client to the Server and back *)

Section Roundtrip.
Variables (originC originS : string) (ids : nat → string).
Variable h : handler.
Variables (method : string) (args : list val).

Let server := mkServer WinC originC h.
Let w0 := boot originC originS ids server.
Let call := request WinC (mkClient WinS originS) method args w0.
Let posted :=
  PostMessage WinS (request_envelope (ids 0) method args) originS.
Let waiting := [(WinS, OfServer server); (WinC, OfRequest (ids 0) 0)].

Lemma request_posted :
  call = (0, mkWorld (origins w0) ids 1 waiting
               [(WinS, mkEvent (request_envelope (ids 0) method args) originC)]
               [None] [posted]).
Proof.
  unfold call, request, postMessage. simpl.
  now rewrite bool_decide_eq_true_2 by (now right).
Qed.

Lemma request_step :
  step call.2 =
  perform_flow WinS
    (_handleMessage server
       (mkEvent (request_envelope (ids 0) method args) (_clientOrigin server)))
    (mkWorld (origins w0) ids 1 waiting [] [None] [posted]).
Proof. now rewrite request_posted. Qed.

Lemma request_served (es : list effect) (r : hval) (v : val) :
  method ≠ "" →
  h (VStr method) args = (es, Returned r) →
  Forall (λ e, is_post e = false) es →
  await r = mret v →
  step call.2 =
    mkWorld (origins w0) ids 1 waiting
      [(WinC, mkEvent (response (VStr (ids 0)) v) originS)] [None]
      ([posted] ++ es ++ [PostMessage WinC (response (VStr (ids 0)) v) originC]).
Proof.
  intros Hm Hh Hes Hr.
  rewrite request_step, (handleMessage_envelope server _ _ _ Hm).
  change (_handler server) with h. rewrite Hh, bind_effects, Hr, bind_ret_l.
  unfold perform_flow. cbn [fst snd emit].
  rewrite foldl_app, (perform_silent _ _ _ Hes).
  cbn [foldl perform]. unfold postMessage. simpl.
  now rewrite bool_decide_eq_true_2 by (now right).
Qed.

Lemma response_delivered (v : val) (es : list effect) :
  step (mkWorld (origins w0) ids 1 waiting
          [(WinC, mkEvent (response (VStr (ids 0)) v) originS)] [None] es) =
  mkWorld (origins w0) ids 1 [(WinS, OfServer server)] [] [Some v] es.
Proof.
  change (step _) with
    (responseListener WinC (ids 0) 0
       (mkEvent (response (VStr (ids 0)) v) originS)
       (mkWorld (origins w0) ids 1 waiting [] [None] es)).
  now rewrite responseListener_response.
Qed.

Lemma request_answered (es : list effect) (r : hval) (v : val) :
  method ≠ "" →
  h (VStr method) args = (es, Returned r) →
  Forall (λ e, is_post e = false) es →
  await r = mret v →
  run 2 call.2 =
    mkWorld (origins w0) ids 1 [(WinS, OfServer server)] [] [Some v]
      ([posted] ++ es ++ [PostMessage WinC (response (VStr (ids 0)) v) originC]).
Proof.
  intros Hm Hh Hes Hr.
  change (run 2 call.2) with (step (step call.2)).
  rewrite (request_served es r v Hm Hh Hes Hr). apply response_delivered.
Qed.

Lemma request_failed (es : list effect) (e : exn) :
  method ≠ "" →
  h (VStr method) args = (es, Thrown e) ∨
  h (VStr method) args = (es, Returned (Promise (Rejected e))) →
  Forall (λ e, is_post e = false) es →
  step call.2 =
    mkWorld (origins w0) ids 1 waiting [] [None]
      ([posted] ++ es ++ [Uncaught e]).
Proof.
  intros Hm Hh Hes.
  rewrite request_step, (handleMessage_envelope server _ _ _ Hm).
  change (_handler server) with h.
  assert (E : (h (VStr method) args ≫= λ r : hval, await r ≫= λ ret : val,
                 emit (PostMessage (_clientWindow server)
                         (response (VStr (ids 0)) ret) (_clientOrigin server)))
              = (es, Thrown e)).
  { destruct Hh as [-> | ->]; [reflexivity |].
    rewrite bind_effects. simpl. now rewrite app_nil_r. }
  rewrite E. unfold perform_flow. cbn [fst snd].
  now rewrite (perform_silent _ _ _ Hes).
Qed.
End Roundtrip.

Lemma spy_returns (h : nat) (f : behaviour) (method : val) (args : list val)
    (r : hval) :
  f method args = Normal r →
  spy h f method args = ([Invoke h method args], Returned r).
Proof. intros H. unfold spy. now rewrite H. Qed.

Lemma spy_fails (h : nat) (f : behaviour) (method : val) (args : list val)
    (e : exn) :
  f method args = Abrupt e ∨ f method args = Normal (Promise (Rejected e)) →
  spy h f method args = ([Invoke h method args], Thrown e) ∨
  spy h f method args =
    ([Invoke h method args], Returned (Promise (Rejected e))).
Proof. intros [H | H]; unfold spy; rewrite H; auto. Qed.

Lemma all_unclaimed (hs : list (nat * behaviour)) (method : val)
    (args : list val) :
  Forall (λ hf, hf.2 method args = Normal (Plain VNull) ∨
                hf.2 method args = Normal (Plain VUndefined)) hs →
  combineHandlers (spies hs) method args =
  (calls hs method args, Returned (Plain VUndefined)).
Proof.
  intros H.
  assert (∃ rs, Forall2 (λ hf r, hf.2 method args = Normal r) hs rs ∧
                default (Plain VUndefined) (find not_null rs)
                = Plain VUndefined) as (rs & Hrs & Hfind).
  { induction H as [| hf hs [Hf | Hf] _ (rs & Hrs & Hfind)].
    - exists []. split; [constructor | reflexivity].
    - exists (Plain VNull :: rs). split; [now constructor |].
      now rewrite find_cons.
    - exists (Plain VUndefined :: rs). split; [now constructor |].
      now rewrite find_cons. }
  now rewrite (combineHandlers_spies _ _ _ _ Hrs), Hfind.
Qed.

(** C1, as stated, fails: the empty string is a method name [request]
    accepts and sends, but the Server's test [req.method] takes it for a
    missing one.  The handler, which would answer, is never called and the
    call's promise stays pending however long the event loop runs. *)
Lemma empty_method_never_answered :
  let server := mkServer WinC "https://app.example" (spy 0 echo) in
  let call := request WinC (mkClient WinS "https://idp.example") "" [VNum 1]
                (boot "https://app.example" "https://idp.example" pretty
                   server) in
  echo (VStr "") [VNum 1] = Normal (Promise (Fulfilled (VArr [VNum 1]))) ∧
  ∀ n, promises (run n call.2) !! call.1 = Some None ∧
       Forall (λ e, is_invoke e = false) (trace (run n call.2)).
Proof.
  intros server call. split; [reflexivity |]. intros [| n].
  - vm_compute. split; [reflexivity | repeat constructor].
  - change (run (S n) call.2) with (run n (step call.2)).
    rewrite run_quiescent by (vm_compute; reflexivity).
    vm_compute. split; [reflexivity | repeat constructor].
Qed.

(** C1, amended: for every request with a non-empty method sent by a
    Client to a Server configured with the matching pair of origins, the
    Server calls the handler once, with the request's method and its
    arguments in order, and the promise [request] returned, pending until
    then, is resolved with the value the handler's promise resolved to. *)
Theorem request_roundtrip (originC originS : string) (ids : nat → string)
    (h : nat) (f : behaviour) (method : string) (args : list val) (v : val) :
  method ≠ "" →
  f (VStr method) args = Normal (Promise (Fulfilled v)) →
  let server := mkServer WinC originC (spy h f) in
  let call := request WinC (mkClient WinS originS) method args
                (boot originC originS ids server) in
  promises call.2 !! call.1 = Some None ∧
  trace (run 2 call.2) =
    [PostMessage WinS (request_envelope (ids 0) method args) originS;
     Invoke h (VStr method) args;
     PostMessage WinC (response (VStr (ids 0)) v) originC] ∧
  promises (run 2 call.2) !! call.1 = Some (Some v) ∧
  tasks (run 2 call.2) = [].
Proof.
  intros Hm Hf server call.
  pose proof (request_answered originC originS ids (spy h f) method args
                [Invoke h (VStr method) args] _ v Hm
                (spy_returns _ _ _ _ _ Hf)) as H.
  fold server in H. fold call in H. rewrite H by (repeat constructor).
  unfold call, server. rewrite request_posted. repeat split.
Qed.

Lemma request_roundtrip_witness :
  let server := mkServer WinC "https://app.example" (spy 0 echo) in
  let call := request WinC (mkClient WinS "https://idp.example") "echo"
                [VNum 1; VNum 2; VNum 3]
                (boot "https://app.example" "https://idp.example" pretty
                   server) in
  promises (run 2 call.2) !! call.1 =
    Some (Some (VArr [VNum 1; VNum 2; VNum 3])).
Proof.
  intros server call.
  refine (proj1 (proj2 (proj2 (request_roundtrip "https://app.example"
    "https://idp.example" pretty 0 echo "echo" [VNum 1; VNum 2; VNum 3]
    (VArr [VNum 1; VNum 2; VNum 3]) _ eq_refl)))).
  discriminate.
Defined.

(** C6: when every constituent handler returns the null sentinel ([null],
    or nothing at all), the combined handler returns [undefined]; the
    Server posts the response [{ id, ret: undefined }], in which [ret] is
    an own property, and the Client resolves the call's promise with
    [undefined]. *)
Theorem unclaimed_request_resolves_undefined (originC originS : string)
    (ids : nat → string) (hs : list (nat * behaviour)) (method : string)
    (args : list val) :
  method ≠ "" →
  Forall (λ hf, hf.2 (VStr method) args = Normal (Plain VNull) ∨
                hf.2 (VStr method) args = Normal (Plain VUndefined)) hs →
  let server := mkServer WinC originC (combineHandlers (spies hs)) in
  let call := request WinC (mkClient WinS originS) method args
                (boot originC originS ids server) in
  combineHandlers (spies hs) (VStr method) args =
    (calls hs (VStr method) args, Returned (Plain VUndefined)) ∧
  trace (run 2 call.2) =
    ([PostMessage WinS (request_envelope (ids 0) method args) originS]
     ++ calls hs (VStr method) args
     ++ [PostMessage WinC (response (VStr (ids 0)) VUndefined) originC])%list ∧
  hasOwnProperty (get (response (VStr (ids 0)) VUndefined) NAMESPACE) "ret"
    = inr true ∧
  promises call.2 !! call.1 = Some None ∧
  promises (run 2 call.2) !! call.1 = Some (Some VUndefined).
Proof.
  intros Hm Hhs server call.
  pose proof (all_unclaimed hs (VStr method) args Hhs) as Hc.
  pose proof (request_answered originC originS ids (combineHandlers (spies hs))
                method args _ _ VUndefined Hm Hc (calls_silent _ _ _) eq_refl)
    as H.
  fold server in H. fold call in H. rewrite H.
  unfold call, server. rewrite request_posted. repeat split. exact Hc.
Qed.

Lemma unclaimed_request_resolves_undefined_witness :
  let h1 : behaviour := λ _ _, Normal (Plain VNull) in
  let server := mkServer WinC "https://app.example"
                  (combineHandlers [spy 1 h1; spy 2 h1]) in
  let call := request WinC (mkClient WinS "https://idp.example") "whoami" []
                (boot "https://app.example" "https://idp.example" pretty
                   server) in
  promises (run 2 call.2) !! call.1 = Some (Some VUndefined).
Proof.
  intros h1 server call.
  refine (proj2 (proj2 (proj2 (proj2
    (unclaimed_request_resolves_undefined "https://app.example"
       "https://idp.example" pretty [(1, h1); (2, h1)] "whoami" [] _ _))))).
  - discriminate.
  - repeat constructor.
Defined.

(** C8: when the handler throws, or returns a promise that rejects, the
    Server's flow for the request calls the handler, posts nothing and
    ends in the failure, which nothing catches.  No response is ever in
    flight, and the promise of the Client's call is pending after any
    number of turns of the event loop. *)
Theorem handler_failure_hangs_client (originC originS : string)
    (ids : nat → string) (h : nat) (f : behaviour) (method : string)
    (args : list val) (e : exn) :
  method ≠ "" →
  f (VStr method) args = Abrupt e ∨
  f (VStr method) args = Normal (Promise (Rejected e)) →
  let server := mkServer WinC originC (spy h f) in
  let call := request WinC (mkClient WinS originS) method args
                (boot originC originS ids server) in
  _handleMessage server
    (mkEvent (request_envelope (ids 0) method args) originC) =
    ([Invoke h (VStr method) args], Thrown e) ∧
  ∀ n, promises (run n call.2) !! call.1 = Some None ∧
       trace (run (S n) call.2) =
         [PostMessage WinS (request_envelope (ids 0) method args) originS;
          Invoke h (VStr method) args; Uncaught e].
Proof.
  intros Hm Hf server call. split.
  - rewrite (handleMessage_envelope server _ _ _ Hm). simpl _handler.
    destruct Hf as [Hf | Hf]; unfold spy; rewrite Hf; reflexivity.
  - pose proof (request_failed originC originS ids (spy h f) method args
                  [Invoke h (VStr method) args] e Hm) as H.
    fold server in H. fold call in H.
    assert (Hs : step call.2 = mkWorld
              (λ t, match t with WinC => originC | WinS => originS end)
              ids 1 [(WinS, OfServer server); (WinC, OfRequest (ids 0) 0)]
              [] [None]
              [PostMessage WinS (request_envelope (ids 0) method args) originS;
               Invoke h (VStr method) args; Uncaught e]).
    { apply H; [| repeat constructor].
      destruct (spy_fails h f _ _ _ Hf) as [-> | ->]; auto. }
    intros n. split.
    + destruct n as [| n].
      * unfold call, server. now rewrite request_posted.
      * change (run (S n) call.2) with (run n (step call.2)).
        rewrite Hs, run_quiescent by reflexivity.
        unfold call, server. now rewrite request_posted.
    + change (run (S n) call.2) with (run n (step call.2)).
      now rewrite Hs, run_quiescent by reflexivity.
Qed.

Lemma handler_failure_hangs_client_witness :
  let failing : behaviour :=
    λ _ _, Normal (Promise (Rejected (Raised (VStr "denied")))) in
  let server := mkServer WinC "https://app.example" (spy 0 failing) in
  let call := request WinC (mkClient WinS "https://idp.example") "login" []
                (boot "https://app.example" "https://idp.example" pretty
                   server) in
  promises (run 5 call.2) !! call.1 = Some None.
Proof.
  intros failing server call.
  refine (proj1 (proj2 (handler_failure_hangs_client "https://app.example"
    "https://idp.example" pretty 0 failing "login" []
    (Raised (VStr "denied")) _ _) 5)).
  - discriminate.
  - right. reflexivity.
Defined.

(** ** Listeners of earlier calls leave a later call alone *)

Lemma perform_frame (self : window) (w : World) (e : effect) :
  listeners (perform self w e) = listeners w ∧
  promises (perform self w e) = promises w.
Proof.
  destruct e; simpl; auto. unfold postMessage.
  destruct (bool_decide _); auto.
Qed.

Lemma perform_flow_frame (self : window) (f : flow unit) (w : World) :
  listeners (perform_flow self f w) = listeners w ∧
  promises (perform_flow self f w) = promises w.
Proof.
  unfold perform_flow. destruct f as [es out]. cbn [fst snd].
  assert (H : listeners (foldl (perform self) w es) = listeners w ∧
              promises (foldl (perform self) w es) = promises w).
  { revert w. induction es as [| e es IH]; intros w; [auto |].
    simpl. destruct (IH (perform self w e)) as [-> ->].
    apply perform_frame. }
  destruct out; auto.
Qed.

Lemma responseListener_cases (self : window) (id : string) (p : nat)
    (ev : MessageEvent) (w : World) :
  responseListener self id p ev w = w ∨
  (∃ e, responseListener self id p ev w = log (Uncaught e) w) ∨
  (∃ v, responseListener self id p ev w =
        removeEventListener self p (resolve p v w)).
Proof.
  unfold responseListener.
  destruct (truthy _ && strict_eq_str _ id); [| auto].
  destruct (hasOwnProperty _ "ret") as [e | []]; eauto.
Qed.

Lemma resolve_frame (p : nat) (v : val) (w : World) :
  listeners (resolve p v w) = listeners w ∧
  length (promises (resolve p v w)) = length (promises w) ∧
  ∀ j, j ≠ p → promises (resolve p v w) !! j = promises w !! j.
Proof.
  unfold resolve. destruct (promises w !! p) as [[u|]|]; auto.
  simpl. split; [reflexivity |]. split; [apply length_insert |].
  intros j Hj. now apply list_lookup_insert_ne.
Qed.

Lemma resolve_pending (p : nat) (v : val) (w : World) :
  promises w !! p = Some None →
  promises (resolve p v w) !! p = Some (Some v).
Proof.
  intros H. unfold resolve. rewrite H. simpl.
  apply list_lookup_insert_eq. now apply lookup_lt_Some in H.
Qed.

Lemma resolve_settled (p : nat) (u v : val) (w : World) :
  promises w !! p = Some (Some u) → resolve p v w = w.
Proof. intros H. unfold resolve. now rewrite H. Qed.

Lemma newer_not_closure (P q : nat) (self : window)
    (T : list (window * listener)) :
  (q < P)%nat → Forall (newer P) T →
  filter (λ r, is_closure self q r = false) T = T.
Proof.
  intros Hq H. induction H as [| [t l] T (q' & Hh & Hle) _ IH]; [reflexivity |].
  rewrite filter_cons_True, IH; [reflexivity |].
  destruct l as [s | id q'']; [reflexivity |]. simpl in *.
  injection Hh as ->. apply bool_decide_eq_false_2. intros [_ ->]. lia.
Qed.

Lemma Forall_kept {A} (P Q : A → Prop) `{!∀ x, Decision (Q x)} (l : list A) :
  Forall P l → Forall P (filter Q l).
Proof.
  induction 1 as [| x l Hx _ IH]; [constructor |].
  rewrite filter_cons. destruct (decide (Q x)); [now constructor | exact IH].
Qed.

Lemma call_older (P : nat) (T L : list (window * listener)) (self : window)
    (ev : MessageEvent) (l : listener) (w : World) :
  Forall (newer P) T → listeners w = (L ++ T)%list → Forall (older P) L →
  older P (self, l) →
  framed P T w (call_listener self ev w l).
Proof.
  intros HT HL Hold Hl. unfold framed. destruct l as [s | id q]; unfold call_listener.
  - destruct (perform_flow_frame self (_handleMessage s ev) w) as [-> ->].
    repeat split; eauto.
  - assert (Hq : (q < P)%nat) by (now apply Hl).
    destruct (responseListener_cases self id q ev w)
      as [-> | [(e & ->) | (v & ->)]].
    + repeat split; eauto.
    + repeat split; eauto.
    + destruct (resolve_frame q v w) as (Hls & Hlen & Hps).
      split; [| split].
      * exists (filter (λ r, is_closure self q r = false) L).
        simpl. rewrite Hls, HL, filter_app, (newer_not_closure P q self T); auto.
        split; [reflexivity | now apply Forall_kept].
      * exact Hlen.
      * intros j Hj. apply Hps. lia.
Qed.

Lemma fold_older (P : nat) (T : list (window * listener)) (self : window)
    (ev : MessageEvent) (ls : list listener) :
  Forall (newer P) T → Forall (λ l, older P (self, l)) ls →
  ∀ (w : World) (L : list (window * listener)),
    listeners w = (L ++ T)%list → Forall (older P) L →
    framed P T w (foldl (call_listener self ev) w ls).
Proof.
  intros HT Hls. induction Hls as [| l ls Hl _ IH]; intros w L HL Hold.
  - unfold framed. repeat split; eauto.
  - simpl.
    destruct (call_older P T L self ev l w HT HL Hold Hl)
      as ((L' & HL' & Hold') & Hlen & Hps).
    destruct (IH _ L' HL' Hold') as (HL'' & Hlen' & Hps').
    split; [exact HL'' |]. split; [congruence |].
    intros j Hj. rewrite Hps', Hps; auto.
Qed.

Lemma listening_older (P : nat) (self : window)
    (L : list (window * listener)) :
  Forall (older P) L →
  Forall (λ l, older P (self, l)) (filter (λ r, r.1 = self) L).*2.
Proof.
  induction 1 as [| [t l] L Hr _ IH]; [constructor |].
  rewrite filter_cons. destruct (decide ((t, l).1 = self)) as [E | _]; [| exact IH].
  simpl in E. subst t. simpl. now constructor.
Qed.

Lemma request_spec (self : window) (c : Client) (m : string) (a : list val)
    (w : World) :
  (request self c m a w).1 = length (promises w) ∧
  listeners (request self c m a w).2 =
    (listeners w ++
     [(self, OfRequest (uuid w (generated w)) (length (promises w)))])%list ∧
  promises (request self c m a w).2 = (promises w ++ [None])%list ∧
  uuid (request self c m a w).2 = uuid w ∧
  generated (request self c m a w).2 = S (generated w) ∧
  trace (request self c m a w).2 =
    (trace w ++
     [PostMessage (_serverWindow c)
        (request_envelope (uuid w (generated w)) m a) (_serverOrigin c)])%list.
Proof.
  unfold request, uuid_v4, postMessage. simpl.
  destruct (bool_decide _); simpl; repeat split.
Qed.

Lemma promises_remove (self : window) (p : nat) (w : World) :
  promises (removeEventListener self p w) = promises w.
Proof. reflexivity. Qed.

Lemma listeners_remove (self : window) (p : nat) (w : World) :
  listeners (removeEventListener self p w) =
  filter (λ r, is_closure self p r = false) (listeners w).
Proof. reflexivity. Qed.

Lemma dispatch_split (self : window) (ev : MessageEvent) (w : World)
    (L T : list (window * listener)) :
  listeners w = (L ++ T)%list →
  dispatch self ev w =
  foldl (call_listener self ev)
    (foldl (call_listener self ev) w (filter (λ r, r.1 = self) L).*2)
    (filter (λ r, r.1 = self) T).*2.
Proof.
  intros H. unfold dispatch, listening.
  now rewrite H, filter_app, fmap_app, foldl_app.
Qed.

(** [well_formed] holds when the Server starts and is kept by every call of
    [request] and every turn of the event loop. *)
Lemma well_formed_boot (originC originS : string) (ids : nat → string)
    (server : Server) :
  well_formed (boot originC originS ids server).
Proof. repeat constructor. intros q Hq. discriminate Hq. Qed.

Lemma well_formed_request (self : window) (c : Client) (m : string)
    (a : list val) (w : World) :
  well_formed w → well_formed (request self c m a w).2.
Proof.
  intros H. unfold well_formed.
  destruct (request_spec self c m a w) as (_ & -> & -> & _).
  rewrite length_app. simpl. apply Forall_app. split.
  - eapply Forall_impl; [exact H |]. intros r Hr q Hq.
    specialize (Hr q Hq). lia.
  - repeat constructor. intros q Hq. injection Hq as <-. lia.
Qed.

Lemma well_formed_dispatch (self : window) (ev : MessageEvent) (w : World) :
  well_formed w → well_formed (dispatch self ev w).
Proof.
  intros H. unfold well_formed.
  destruct (fold_older (length (promises w)) [] self ev (listening self w)
              ltac:(constructor) (listening_older _ self _ H) w (listeners w)
              ltac:(now rewrite app_nil_r) H)
    as ((L' & HL' & Hold') & Hlen & _).
  fold (dispatch self ev w) in HL', Hlen.
  now rewrite HL', app_nil_r, Hlen.
Qed.

Lemma well_formed_step (w : World) : well_formed w → well_formed (step w).
Proof.
  intros H. unfold step. destruct (tasks w) as [| [target ev] rest] eqn:E;
    [exact H |].
  now apply well_formed_dispatch.
Qed.

(** A promise whose closure is not registered in a window is out of reach
    of every message delivered there: with the listener unregistered, a
    later response with the same id changes nothing. *)
Lemma unregistered_promise_untouched (self : window) (ev : MessageEvent)
    (p : nat) (w : World) :
  Forall (λ r, is_closure self p r = false) (listeners w) →
  promises (dispatch self ev w) !! p = promises w !! p.
Proof.
  intros H. unfold dispatch.
  assert (Hls : Forall (λ l, ∀ id, l ≠ OfRequest id p) (listening self w)).
  { unfold listening. induction H as [| [t l] L Hr _ IH]; [constructor |].
    rewrite filter_cons. destruct (decide ((t, l).1 = self)) as [E | _];
      [| exact IH].
    simpl in E. subst t. simpl. constructor; [| exact IH].
    intros id ->. simpl in Hr.
    now rewrite bool_decide_eq_true_2 in Hr by auto. }
  clear H. revert Hls. generalize (listening self w) as ls. intros ls Hls.
  revert w. induction Hls as [| l ls Hl _ IH]; intros w; [reflexivity |].
  simpl. rewrite IH. destruct l as [s | id q]; unfold call_listener.
  - now destruct (perform_flow_frame self (_handleMessage s ev) w) as [_ ->].
  - assert (q ≠ p) by (intros ->; now apply (Hl id)).
    destruct (responseListener_cases self id q ev w)
      as [-> | [(e & ->) | (v & ->)]]; try reflexivity.
    rewrite promises_remove.
    destruct (resolve_frame q v w) as (_ & _ & Hother). now apply Hother.
Qed.

(** C4: two calls of [request] in one window, by one Client or by two, in
    any well-formed world, with distinct generated ids, whose responses arrive in the opposite
    order.  Both promises are pending after the calls; the response to the
    second call resolves the second promise only, with its own [ret]; the
    response to the first call then resolves the first promise with its own
    [ret] and leaves the second as it was. *)
Theorem out_of_order_responses (w : World) (self : window) (c1 c2 : Client)
    (m1 m2 : string) (a1 a2 : list val) (r1 r2 : val) (o1 o2 : string) :
  well_formed w →
  let call1 := request self c1 m1 a1 w in
  let call2 := request self c2 m2 a2 call1.2 in
  let id1 := uuid w (generated w) in
  let id2 := uuid w (S (generated w)) in
  id1 ≠ id2 →
  let first := dispatch self (mkEvent (response (VStr id2) r2) o2) call2.2 in
  let second := dispatch self (mkEvent (response (VStr id1) r1) o1) first in
  trace call2.2 =
    (trace w ++
     [PostMessage (_serverWindow c1) (request_envelope id1 m1 a1)
        (_serverOrigin c1);
      PostMessage (_serverWindow c2) (request_envelope id2 m2 a2)
        (_serverOrigin c2)])%list ∧
  (promises call2.2 !! call1.1 = Some None ∧
   promises call2.2 !! call2.1 = Some None) ∧
  (promises first !! call1.1 = Some None ∧
   promises first !! call2.1 = Some (Some r2)) ∧
  (promises second !! call1.1 = Some (Some r1) ∧
   promises second !! call2.1 = Some (Some r2)).
Proof.
  intros Hwf call1 call2 id1 id2 Hid first second.
  destruct (request_spec self c1 m1 a1 w) as (Hp1 & Hl1 & Hs1 & Hu1 & Hg1 & Ht1).
  fold call1 in Hp1, Hl1, Hs1, Hu1, Hg1, Ht1. fold id1 in Hl1, Ht1.
  destruct (request_spec self c2 m2 a2 call1.2)
    as (Hp2 & Hl2 & Hs2 & _ & _ & Ht2).
  fold call2 in Hp2, Hl2, Hs2, Ht2.
  rewrite Hu1, Hg1 in Hl2, Ht2. fold id2 in Hl2, Ht2.
  set (P := length (promises w)) in *.
  assert (HP2 : call2.1 = S P).
  { rewrite Hp2, Hs1, length_app. simpl. lia. }
  rewrite Hs1 in Hs2. rewrite <- app_assoc in Hs2. cbn [app] in Hs2.
  rewrite Hl1 in Hl2. rewrite <- app_assoc in Hl2. cbn [app] in Hl2.
  rewrite Hs1, length_app in Hl2. cbn [length] in Hl2.
  replace (length (promises w) + 1) with (S P) in Hl2 by (unfold P; lia).
  rewrite Ht1 in Ht2. rewrite <- app_assoc in Ht2. cbn [app] in Ht2.
  rewrite Hp1, HP2. clear Hp1 Hp2 HP2 Hl1 Hs1 Hu1 Hg1 Ht1.
  set (k1 := (self, OfRequest id1 P)) in *.
  set (k2 := (self, OfRequest id2 (S P))) in *.
  assert (Hk1 : newer P k1) by (exists P; split; [reflexivity | lia]).
  assert (Hk2 : newer P k2) by (exists (S P); split; [reflexivity | lia]).
  assert (Hpend : promises call2.2 !! P = Some None ∧
                  promises call2.2 !! S P = Some None).
  { rewrite Hs2. split.
    - rewrite lookup_app_r by (unfold P; lia).
      now replace (P - length (promises w)) with 0 by (unfold P; lia).
    - rewrite lookup_app_r by (unfold P; lia).
      now replace (S P - length (promises w)) with 1 by (unfold P; lia). }
  split; [exact Ht2 |]. split; [exact Hpend |].
  (* the response to the second call is delivered first *)
  assert (Hfirst : (promises first !! P = Some None ∧
                    promises first !! S P = Some (Some r2)) ∧
                   ∃ L', listeners first = (L' ++ [k1])%list ∧
                         Forall (older P) L').
  { unfold first.
    rewrite (dispatch_split self _ call2.2 (listeners w) [k1; k2] Hl2).
    destruct (fold_older P [k1; k2] self
                (mkEvent (response (VStr id2) r2) o2)
                (filter (λ r, r.1 = self) (listeners w)).*2
                ltac:(auto) (listening_older P self _ Hwf)
                call2.2 (listeners w) Hl2 Hwf)
      as ((L' & HL' & Hold') & _ & Hps).
    set (wA := foldl _ call2.2 _) in *.
    unfold k1, k2. rewrite !filter_cons_True by reflexivity.
    cbn [filter list_filter fmap list_fmap snd foldl call_listener].
    rewrite (responseListener_other self id1 id2) by congruence.
    rewrite responseListener_response.
    destruct Hpend as [Hpend1 Hpend2].
    rewrite <- (Hps P) in Hpend1 by lia.
    rewrite <- (Hps (S P)) in Hpend2 by lia.
    destruct (resolve_frame (S P) r2 wA) as (Hls & _ & Hother).
    split.
    - rewrite promises_remove. split.
      + rewrite Hother by lia. exact Hpend1.
      + now apply resolve_pending.
    - exists (filter (λ r, is_closure self (S P) r = false) L').
      rewrite listeners_remove, Hls, HL', filter_app. split; [| now apply Forall_kept].
      f_equal.
      rewrite filter_cons_True, filter_cons_False.
      + reflexivity.
      + simpl. rewrite bool_decide_eq_true_2 by auto. discriminate.
      + simpl. apply bool_decide_eq_false_2. intros [_ E]. lia. }
  destruct Hfirst as (Hfirst & L' & HL' & Hold').
  split; [exact Hfirst |].
  (* then the response to the first call *)
  unfold second.
  rewrite (dispatch_split self _ first L' [k1] HL').
  destruct (fold_older P [k1] self (mkEvent (response (VStr id1) r1) o1)
              (filter (λ r, r.1 = self) L').*2
              ltac:(auto) (listening_older P self _ Hold')
              first L' HL' Hold')
    as (_ & _ & Hps).
  set (wC := foldl _ first _) in *.
  unfold k1. rewrite !filter_cons_True by reflexivity.
  cbn [filter list_filter fmap list_fmap snd foldl call_listener].
  rewrite responseListener_response.
  destruct Hfirst as [Hf1 Hf2].
  rewrite <- (Hps P) in Hf1 by lia. rewrite <- (Hps (S P)) in Hf2 by lia.
  destruct (resolve_frame P r1 wC) as (_ & _ & Hother).
  rewrite promises_remove. split.
  - now apply resolve_pending.
  - rewrite Hother by lia. exact Hf2.
Qed.

Lemma out_of_order_responses_witness :
  let server := mkServer WinC "https://app.example" (spy 0 echo) in
  let w := boot "https://app.example" "https://idp.example" pretty server in
  let c := mkClient WinS "https://idp.example" in
  let call1 := request WinC c "one" [] w in
  let call2 := request WinC c "two" [] call1.2 in
  let first :=
    dispatch WinC (mkEvent (response (VStr "1") (VNum 22)) "https://idp.example")
      call2.2 in
  let second :=
    dispatch WinC (mkEvent (response (VStr "0") (VNum 11)) "https://idp.example")
      first in
  promises second !! call1.1 = Some (Some (VNum 11)) ∧
  promises second !! call2.1 = Some (Some (VNum 22)).
Proof.
  intros server w c call1 call2 first second.
  refine (proj2 (proj2 (proj2 (out_of_order_responses w WinC c c "one" "two"
    [] [] (VNum 11) (VNum 22) "https://idp.example" "https://idp.example"
    _ _)))).
  - repeat constructor. intros q Hq. discriminate Hq.
  - vm_compute. discriminate.
Defined.

(** ** The response listener of one call *)

Lemma strict_eq_str_own (resp : val) (id : string) :
  strict_eq_str (get resp "id") id = true → own resp "id" = Some (VStr id).
Proof.
  unfold get. destruct (own resp "id") as [[]|]; simpl; try discriminate.
  intros H. apply bool_decide_eq_true_1 in H. now subst.
Qed.

(** A completed response to the call resolves its promise and unregisters
    the listener, provided the response does not hide [hasOwnProperty]. *)
Lemma responseListener_answered (self : window) (id : string) (p : nat)
    (ev : MessageEvent) (ret : val) (w : World) :
  answers id ev ret →
  own (get (data ev) NAMESPACE) "hasOwnProperty" = None →
  responseListener self id p ev w =
  removeEventListener self p (resolve p ret w).
Proof.
  intros (resp & Hns & Hid & Hret) Hshadow. unfold responseListener.
  rewrite (get_own _ _ _ Hns) in Hshadow.
  rewrite (js_and_own _ _ _ Hns), (own_Some_truthy _ _ _ Hid),
    (get_own _ _ _ Hid).
  simpl. rewrite bool_decide_eq_true_2 by reflexivity.
  unfold hasOwnProperty. rewrite Hshadow, Hret, (get_own _ _ _ Hret).
  now rewrite bool_decide_eq_true_2 by eauto.
Qed.

(** Any other message leaves the promises and the listeners as they are. *)
Lemma responseListener_unanswered (self : window) (id : string) (p : nat)
    (ev : MessageEvent) (w : World) :
  (∀ ret, ¬ answers id ev ret) →
  promises (responseListener self id p ev w) = promises w ∧
  listeners (responseListener self id p ev w) = listeners w.
Proof.
  intros Hno. unfold responseListener.
  destruct (truthy _ && strict_eq_str _ id) eqn:E; [| auto].
  apply andb_true_iff in E as [Ht Hid]. apply strict_eq_str_own in Hid.
  destruct (hasOwnProperty _ "ret") as [e | []] eqn:Hh; auto.
  exfalso. unfold hasOwnProperty in Hh.
  destruct (own _ "hasOwnProperty"); [discriminate |].
  injection Hh as Hh. apply bool_decide_eq_true_1 in Hh as [ret Hret].
  destruct (own (data ev) NAMESPACE) as [resp|] eqn:Hns.
  - rewrite (js_and_own _ _ _ Hns) in *. apply (Hno ret). now exists resp.
  - rewrite (js_and_absent_falsy _ _ Hns) in Ht. discriminate.
Qed.

(** A response that carries an own property named [hasOwnProperty] makes
    the listener throw instead: nothing is resolved or unregistered. *)
Lemma responseListener_shadowed (self : window) (id : string) (p : nat)
    (ev : MessageEvent) (resp : val) (w : World) :
  own (data ev) NAMESPACE = Some resp →
  own resp "id" = Some (VStr id) →
  is_Some (own resp "hasOwnProperty") →
  ∃ msg, responseListener self id p ev w = log (Uncaught (TypeError msg)) w.
Proof.
  intros Hns Hid [x Hx]. unfold responseListener.
  rewrite (js_and_own _ _ _ Hns), (own_Some_truthy _ _ _ Hid),
    (get_own _ _ _ Hid).
  simpl. rewrite bool_decide_eq_true_2 by reflexivity.
  unfold hasOwnProperty. rewrite Hx. eauto.
Qed.

(** Once unregistered, the closure of promise [p] is gone from the window,
    and a settled promise stays as it is. *)
Lemma removed_listener_gone (self : window) (p : nat) (w : World) :
  Forall (λ r, is_closure self p r = false)
    (listeners (removeEventListener self p w)).
Proof.
  rewrite listeners_remove. apply Forall_forall. intros r Hr.
  now apply list_elem_of_filter in Hr as [Hr _].
Qed.

(** C7, at the input where the code departs from it: a response to the
    call that has the namespace key, the call's [id] and an own [ret], and
    also an own property named [hasOwnProperty].  The listener throws a
    TypeError; the promise stays pending and the listener registered. *)
Theorem shadowed_hasOwnProperty_not_resolved :
  let server := mkServer WinC "https://app.example" (spy 0 echo) in
  let call := request WinC (mkClient WinS "https://idp.example") "echo" []
                (boot "https://app.example" "https://idp.example" pretty
                   server) in
  let resp := VObj (<["id" := VStr "0"]> (<["ret" := VNum 1]>
                      {[ "hasOwnProperty" := VBool false ]})) in
  let ev := mkEvent (VObj {[ NAMESPACE := resp ]}) "https://idp.example" in
  let w := dispatch WinC ev call.2 in
  listeners call.2 = [(WinS, OfServer server); (WinC, OfRequest "0" call.1)] ∧
  answers "0" ev (VNum 1) ∧
  promises w !! call.1 = Some None ∧
  listeners w = listeners call.2 ∧
  trace w =
    (trace call.2 ++
     [Uncaught (TypeError "resp.hasOwnProperty is not a function")])%list.
Proof.
  intros server call resp ev w. split; [reflexivity |]. split.
  { exists resp. repeat split. }
  split; [| split]; vm_compute; reflexivity.
Qed.

(** * Further properties *)

(** ** Further properties of the Server *)

Lemma await_value (r : hval) (v : val) :
  r = Plain v ∨ r = Promise (Fulfilled v) → await r = mret v.
Proof. now intros [-> | ->]. Qed.

(** X1: The reply to a request echoes whatever the request carried as [id],
    [undefined] when it carried none, and is the only message the Server
    posts for it: to the configured window, with the configured origin. *)
Theorem reply_echoes_id (this : Server) (ev : MessageEvent) (req : val)
    (xs : list val) (es : list effect) (r : hval) (v : val) :
  origin ev = _clientOrigin this →
  own (data ev) NAMESPACE = Some req →
  truthy (get req "method") = true →
  own req "args" = Some (VArr xs) →
  _handler this (get req "method") xs = (es, Returned r) →
  r = Plain v ∨ r = Promise (Fulfilled v) →
  _handleMessage this ev =
    ((es ++ [PostMessage (_clientWindow this) (response (get req "id") v)
               (_clientOrigin this)])%list, Returned tt).
Proof.
  intros Ho H Hm Ha Hh Hr.
  apply (handleMessage_reply this ev req xs es r v Ho H Hm); auto.
  - now rewrite (get_own _ _ _ Ha).
  - now apply await_value.
Qed.

Lemma reply_echoes_id_witness :
  let plain : behaviour := λ _ _, Normal (Plain (VNum 42)) in
  let this := mkServer WinC "https://app.example" (spy 0 plain) in
  let ev := mkEvent
    (VObj {[ NAMESPACE :=
       VObj (<["id" := VNum 7]> (<["method" := VStr "answer"]>
               {[ "args" := VArr [] ]})) ]})
    "https://app.example" in
  _handleMessage this ev =
    ([Invoke 0 (VStr "answer") [];
      PostMessage WinC (response (VNum 7) (VNum 42)) "https://app.example"],
     Returned tt).
Proof.
  intros plain this ev.
  refine (reply_echoes_id this ev _ [] [Invoke 0 (VStr "answer") []]
            (Plain (VNum 42)) (VNum 42) eq_refl eq_refl eq_refl eq_refl
            eq_refl _).
  now left.
Defined.

(** X2: a [method] that is present but falsy (the empty string, [0], [null],
    [false]) is taken for a missing one: the message is ignored. *)
Theorem falsy_method_ignored (this : Server) (ev : MessageEvent)
    (req m : val) :
  origin ev = _clientOrigin this →
  own (data ev) NAMESPACE = Some req →
  own req "method" = Some m →
  truthy m = false →
  _handleMessage this ev = ([], Returned tt).
Proof.
  intros Ho H Hm Hf. rewrite (handleMessage_authorized this ev Ho). cbv zeta.
  now rewrite (js_and_own _ _ _ H), (js_and_own _ _ _ Hm), Hf.
Qed.

Lemma falsy_method_ignored_witness :
  let this := mkServer WinC "https://app.example" (spy 0 echo) in
  let ev := mkEvent
    (VObj {[ NAMESPACE :=
       VObj (<["id" := VStr "7"]> (<["method" := VNum 0]>
               {[ "args" := VArr [] ]})) ]})
    "https://app.example" in
  _handleMessage this ev = ([], Returned tt).
Proof.
  intros this ev.
  exact (falsy_method_ignored this ev _ (VNum 0) eq_refl eq_refl eq_refl
           eq_refl).
Defined.

(** X3: an [args] that is a string is spread like an array: the handler gets
    one argument per character. *)
Theorem string_args_spread (this : Server) (ev : MessageEvent) (req : val)
    (s : string) (h : nat) (f : behaviour) (r : hval) (v : val) :
  origin ev = _clientOrigin this →
  own (data ev) NAMESPACE = Some req →
  truthy (get req "method") = true →
  own req "args" = Some (VStr s) →
  _handler this = spy h f →
  f (get req "method") (chars s) = Normal r →
  r = Plain v ∨ r = Promise (Fulfilled v) →
  _handleMessage this ev =
    ([Invoke h (get req "method") (chars s);
      PostMessage (_clientWindow this) (response (get req "id") v)
        (_clientOrigin this)], Returned tt).
Proof.
  intros Ho H Hm Ha Hh Hf Hr.
  apply (handleMessage_reply this ev req (chars s)
           [Invoke h (get req "method") (chars s)] r v Ho H Hm).
  - now rewrite (get_own _ _ _ Ha).
  - rewrite Hh. now apply spy_returns.
  - now apply await_value.
Qed.

Lemma string_args_spread_witness :
  let this := mkServer WinC "https://app.example" (spy 0 echo) in
  let ev := mkEvent
    (VObj {[ NAMESPACE :=
       VObj (<["id" := VStr "7"]> (<["method" := VStr "echo"]>
               {[ "args" := VStr "ab" ]})) ]})
    "https://app.example" in
  _handleMessage this ev =
    ([Invoke 0 (VStr "echo") [VStr "a"; VStr "b"];
      PostMessage WinC (response (VStr "7") (VArr [VStr "a"; VStr "b"]))
        "https://app.example"], Returned tt).
Proof.
  intros this ev.
  refine (string_args_spread this ev _ "ab" 0 echo _
            (VArr [VStr "a"; VStr "b"]) eq_refl eq_refl eq_refl eq_refl
            eq_refl eq_refl _).
  now right.
Defined.

(** ** Further properties of combineHandlers *)

Lemma map_spies_throw (pre post : list (nat * behaviour)) (h : nat)
    (f : behaviour) (rs : list hval) (method : val) (args : list val)
    (e : exn) :
  Forall2 (λ hf r, hf.2 method args = Normal r) pre rs →
  f method args = Abrupt e →
  mapM (λ handler : handler, handler method args)
    (spies (pre ++ (h, f) :: post)) =
  (calls (pre ++ [(h, f)]) method args, Thrown e).
Proof.
  intros Hpre Hf. induction Hpre as [| [h' f'] r pre rs Hf' _ IH].
  - simpl. unfold spy. now rewrite Hf.
  - simpl in *. rewrite IH. unfold spy. now rewrite Hf'.
Qed.

(** X4: a handler that throws ends the combined call there: the handlers
    before it were called and their results are lost, the handlers after
    it are not called, and the combined handler throws what it threw. *)
Theorem combineHandlers_stops_at_throw (pre post : list (nat * behaviour))
    (h : nat) (f : behaviour) (rs : list hval) (method : val)
    (args : list val) (e : exn) :
  Forall2 (λ hf r, hf.2 method args = Normal r) pre rs →
  f method args = Abrupt e →
  combineHandlers (spies (pre ++ (h, f) :: post)) method args =
  (calls (pre ++ [(h, f)]) method args, Thrown e).
Proof.
  intros Hpre Hf. unfold combineHandlers.
  now rewrite (map_spies_throw pre post h f rs method args e Hpre Hf).
Qed.

Lemma combineHandlers_stops_at_throw_witness :
  let ok : behaviour := λ _ _, Normal (Promise (Fulfilled (VStr "ok"))) in
  let boom : behaviour := λ _ _, Abrupt (Raised (VStr "boom")) in
  combineHandlers [spy 1 ok; spy 2 boom; spy 3 ok] (VStr "m") [] =
    ([Invoke 1 (VStr "m") []; Invoke 2 (VStr "m") []],
     Thrown (Raised (VStr "boom"))).
Proof.
  intros ok boom.
  apply (combineHandlers_stops_at_throw [(1, ok)] [(3, ok)] 2 boom
           [Promise (Fulfilled (VStr "ok"))] (VStr "m") []
           (Raised (VStr "boom"))).
  - repeat constructor.
  - reflexivity.
Defined.

(** ** Further properties of one call through the two windows *)

Lemma request_in_boot (originC originS : string) (ids : nat → string)
    (server : Server) (method : string) (args : list val) :
  request WinC (mkClient WinS originS) method args
    (boot originC originS ids server) =
  (0, mkWorld (λ t, match t with WinC => originC | WinS => originS end)
        ids 1 [(WinS, OfServer server); (WinC, OfRequest (ids 0) 0)]
        [(WinS, mkEvent (request_envelope (ids 0) method args) originC)]
        [None]
        [PostMessage WinS (request_envelope (ids 0) method args) originS]).
Proof.
  unfold request, postMessage. simpl.
  now rewrite bool_decide_eq_true_2 by (now right).
Qed.

Lemma served_in_boot (originC originS : string) (ids : nat → string)
    (server : Server) (method : string) (args : list val) :
  step (request WinC (mkClient WinS originS) method args
          (boot originC originS ids server)).2 =
  perform_flow WinS
    (_handleMessage server
       (mkEvent (request_envelope (ids 0) method args) originC))
    (mkWorld (λ t, match t with WinC => originC | WinS => originS end)
       ids 1 [(WinS, OfServer server); (WinC, OfRequest (ids 0) 0)]
       [] [None]
       [PostMessage WinS (request_envelope (ids 0) method args) originS]).
Proof. now rewrite request_in_boot. Qed.

(** What is true of the world after the first turn holds after every
    later one when the turn left no message in flight. *)
Lemma settled_after_first_turn (w : World) (n : nat) :
  tasks (step w) = [] → run (S n) w = step w.
Proof. intros H. simpl. now apply run_quiescent. Qed.

(** X5: a handler whose promise never settles leaves the call pending for
    good, and silently: the Server's flow stops at [await], nothing is
    posted and nothing is reported. *)
Theorem unsettled_handler_silent_hang (originC originS : string)
    (ids : nat → string) (h : nat) (f : behaviour) (method : string)
    (args : list val) :
  method ≠ "" →
  f (VStr method) args = Normal (Promise Pending) →
  let server := mkServer WinC originC (spy h f) in
  let call := request WinC (mkClient WinS originS) method args
                (boot originC originS ids server) in
  _handleMessage server
    (mkEvent (request_envelope (ids 0) method args) originC) =
    ([Invoke h (VStr method) args], Suspended) ∧
  ∀ n, promises (run n call.2) !! call.1 = Some None ∧
       trace (run (S n) call.2) =
         [PostMessage WinS (request_envelope (ids 0) method args) originS;
          Invoke h (VStr method) args].
Proof.
  intros Hm Hf server call.
  assert (E : _handleMessage server
                (mkEvent (request_envelope (ids 0) method args) originC) =
              ([Invoke h (VStr method) args], Suspended)).
  { rewrite (handleMessage_envelope server _ _ _ Hm). simpl _handler.
    unfold spy. now rewrite Hf. }
  split; [exact E |].
  assert (Hs : step call.2 = mkWorld
            (λ t, match t with WinC => originC | WinS => originS end)
            ids 1 [(WinS, OfServer server); (WinC, OfRequest (ids 0) 0)]
            [] [None]
            [PostMessage WinS (request_envelope (ids 0) method args) originS;
             Invoke h (VStr method) args]).
  { unfold call. rewrite served_in_boot, E. reflexivity. }
  intros n. split.
  - destruct n as [| n].
    + unfold call. now rewrite request_in_boot.
    + rewrite settled_after_first_turn by now rewrite Hs.
      rewrite Hs. unfold call. now rewrite request_in_boot.
  - rewrite settled_after_first_turn by now rewrite Hs.
    now rewrite Hs.
Qed.

Lemma unsettled_handler_silent_hang_witness :
  let never : behaviour := λ _ _, Normal (Promise Pending) in
  let server := mkServer WinC "https://app.example" (spy 0 never) in
  let call := request WinC (mkClient WinS "https://idp.example") "login" []
                (boot "https://app.example" "https://idp.example" pretty
                   server) in
  promises (run 9 call.2) !! call.1 = Some None.
Proof.
  intros never server call.
  refine (proj1 (proj2 (unsettled_handler_silent_hang "https://app.example"
    "https://idp.example" pretty 0 never "login" [] _ eq_refl) 9)).
  discriminate.
Defined.

(** X6: a Server configured with another origin than the one the Client's
    window really has never answers that Client: it warns about the
    request, the handler is not called, and the call stays pending. *)
Theorem misconfigured_server_never_answers (originC originS : string)
    (ids : nat → string) (configured : string) (h : handler)
    (method : string) (args : list val) :
  configured ≠ originC →
  let server := mkServer WinC configured h in
  let call := request WinC (mkClient WinS originS) method args
                (boot originC originS ids server) in
  ∀ n, promises (run n call.2) !! call.1 = Some None ∧
       trace (run (S n) call.2) =
         [PostMessage WinS (request_envelope (ids 0) method args) originS;
          Warn ("solid-auth-client is listening to " ++ configured ++
                " so ignored a message received from " ++ originC ++ ".")].
Proof.
  intros Hne server call.
  assert (Hs : step call.2 = mkWorld
            (λ t, match t with WinC => originC | WinS => originS end)
            ids 1 [(WinS, OfServer server); (WinC, OfRequest (ids 0) 0)]
            [] [None]
            [PostMessage WinS (request_envelope (ids 0) method args) originS;
             Warn (warning configured originC)]).
  { unfold call. rewrite served_in_boot.
    rewrite handleMessage_foreign by (simpl; congruence). reflexivity. }
  intros n. split.
  - destruct n as [| n].
    + unfold call. now rewrite request_in_boot.
    + rewrite settled_after_first_turn by now rewrite Hs.
      rewrite Hs. unfold call. now rewrite request_in_boot.
  - rewrite settled_after_first_turn by now rewrite Hs.
    now rewrite Hs.
Qed.

Lemma misconfigured_server_never_answers_witness :
  let server := mkServer WinC "https://other.example" (spy 0 echo) in
  let call := request WinC (mkClient WinS "https://idp.example") "echo" []
                (boot "https://app.example" "https://idp.example" pretty
                   server) in
  promises (run 9 call.2) !! call.1 = Some None.
Proof.
  intros server call.
  refine (proj1 (misconfigured_server_never_answers "https://app.example"
    "https://idp.example" pretty "https://other.example" (spy 0 echo)
    "echo" [] _ 9)).
  discriminate.
Defined.




(** ** combineHandlers behind the Server *)

Lemma claimant_selected (pre post : list (nat * behaviour)) (h : nat)
    (f : behaviour) (r : hval) (rs : list hval) (method : val)
    (args : list val) :
  Forall (λ hf, hf.2 method args = Normal (Plain VNull)) pre →
  f method args = Normal r → not_null r = true →
  Forall2 (λ hf r, hf.2 method args = Normal r) post rs →
  combineHandlers (spies (pre ++ (h, f) :: post)) method args =
  (calls (pre ++ (h, f) :: post) method args, Returned r).
Proof.
  intros Hpre Hf Hr Hpost.
  assert (H : Forall2 (λ hf r, hf.2 method args = Normal r)
                (pre ++ (h, f) :: post)
                (replicate (length pre) (Plain VNull) ++ r :: rs)).
  { apply Forall2_app; [| now constructor].
    clear -Hpre. induction Hpre; simpl; constructor; auto. }
  rewrite (combineHandlers_spies _ _ _ _ H).
  rewrite find_after_nulls; [reflexivity | | exact Hr].
  clear. induction (length pre); simpl; constructor; auto.
Qed.

(** X8: Behind a Server, the first handler that returns a promise answers the
    call: the Client gets what that promise resolves to (be it [null]),
    although the later handlers were called too. *)
Theorem first_claimant_answers (originC originS : string)
    (ids : nat → string) (pre post : list (nat * behaviour)) (h : nat)
    (f : behaviour) (rs : list hval) (method : string) (args : list val)
    (v : val) :
  method ≠ "" →
  Forall (λ hf, hf.2 (VStr method) args = Normal (Plain VNull)) pre →
  f (VStr method) args = Normal (Promise (Fulfilled v)) →
  Forall2 (λ hf r, hf.2 (VStr method) args = Normal r) post rs →
  let hs := (pre ++ (h, f) :: post)%list in
  let server := mkServer WinC originC (combineHandlers (spies hs)) in
  let call := request WinC (mkClient WinS originS) method args
                (boot originC originS ids server) in
  trace (run 2 call.2) =
    ([PostMessage WinS (request_envelope (ids 0) method args) originS]
     ++ calls hs (VStr method) args
     ++ [PostMessage WinC (response (VStr (ids 0)) v) originC])%list ∧
  promises (run 2 call.2) !! call.1 = Some (Some v).
Proof.
  intros Hm Hpre Hf Hpost hs server call.
  pose proof (claimant_selected pre post h f _ rs (VStr method) args
                Hpre Hf eq_refl Hpost) as Hc.
  pose proof (request_answered originC originS ids (combineHandlers (spies hs))
                method args _ _ v Hm Hc (calls_silent _ _ _) eq_refl) as H.
  fold server in H. fold call in H. rewrite H.
  unfold call. rewrite request_in_boot. split; reflexivity.
Qed.

Lemma first_claimant_answers_witness :
  let skip : behaviour := λ _ _, Normal (Plain VNull) in
  let nothing : behaviour := λ _ _, Normal (Promise (Fulfilled VNull)) in
  let ok : behaviour := λ _ _, Normal (Promise (Fulfilled (VStr "ok"))) in
  let server := mkServer WinC "https://app.example"
                  (combineHandlers [spy 1 skip; spy 2 nothing; spy 3 ok]) in
  let call := request WinC (mkClient WinS "https://idp.example") "whoami" []
                (boot "https://app.example" "https://idp.example" pretty
                   server) in
  promises (run 2 call.2) !! call.1 = Some (Some VNull).
Proof.
  intros skip nothing ok server call.
  refine (proj2 (first_claimant_answers "https://app.example"
    "https://idp.example" pretty [(1, skip)] [(3, ok)] 2 nothing
    [Promise (Fulfilled (VStr "ok"))] "whoami" [] VNull _ _ eq_refl _)).
  - discriminate.
  - repeat constructor.
  - repeat constructor.
Defined.

(** X9: There is no falling back: when the first handler that returns a
    promise returns one that rejects, the call is lost, whatever the later
    handlers returned. *)
Theorem rejecting_claimant_no_fallback (originC originS : string)
    (ids : nat → string) (pre post : list (nat * behaviour)) (h : nat)
    (f : behaviour) (rs : list hval) (method : string) (args : list val)
    (e : exn) :
  method ≠ "" →
  Forall (λ hf, hf.2 (VStr method) args = Normal (Plain VNull)) pre →
  f (VStr method) args = Normal (Promise (Rejected e)) →
  Forall2 (λ hf r, hf.2 (VStr method) args = Normal r) post rs →
  let hs := (pre ++ (h, f) :: post)%list in
  let server := mkServer WinC originC (combineHandlers (spies hs)) in
  let call := request WinC (mkClient WinS originS) method args
                (boot originC originS ids server) in
  ∀ n, promises (run n call.2) !! call.1 = Some None ∧
       trace (run (S n) call.2) =
         ([PostMessage WinS (request_envelope (ids 0) method args) originS]
          ++ calls hs (VStr method) args ++ [Uncaught e])%list.
Proof.
  intros Hm Hpre Hf Hpost hs server call.
  pose proof (claimant_selected pre post h f _ rs (VStr method) args
                Hpre Hf eq_refl Hpost) as Hc.
  pose proof (request_failed originC originS ids (combineHandlers (spies hs))
                method args _ e Hm (or_intror Hc) (calls_silent _ _ _)) as Hs.
  fold server in Hs. fold call in Hs.
  intros n. split.
  - destruct n as [| n].
    + unfold call. now rewrite request_in_boot.
    + rewrite settled_after_first_turn by now rewrite Hs.
      rewrite Hs. unfold call. now rewrite request_in_boot.
  - rewrite settled_after_first_turn by now rewrite Hs.
    now rewrite Hs.
Qed.

Lemma rejecting_claimant_no_fallback_witness :
  let denied : behaviour :=
    λ _ _, Normal (Promise (Rejected (Raised (VStr "denied")))) in
  let ok : behaviour := λ _ _, Normal (Promise (Fulfilled (VStr "ok"))) in
  let server := mkServer WinC "https://app.example"
                  (combineHandlers [spy 1 denied; spy 2 ok]) in
  let call := request WinC (mkClient WinS "https://idp.example") "whoami" []
                (boot "https://app.example" "https://idp.example" pretty
                   server) in
  promises (run 9 call.2) !! call.1 = Some None.
Proof.
  intros denied ok server call.
  refine (proj1 (rejecting_claimant_no_fallback "https://app.example"
    "https://idp.example" pretty [] [(2, ok)] 1 denied
    [Promise (Fulfilled (VStr "ok"))] "whoami" []
    (Raised (VStr "denied")) _ _ eq_refl _ 9)).
  - discriminate.
  - constructor.
  - repeat constructor.
Defined.

(** ** The life of one pending call among other traffic *)

Lemma dispatch_pending_call (P : nat) (self : window) (id : string)
    (ev : MessageEvent) (w : World) (L : list (window * listener)) :
  listeners w = (L ++ [(self, OfRequest id P)])%list → Forall (older P) L →
  ∃ wA, framed P [(self, OfRequest id P)] w wA ∧
        dispatch self ev w = responseListener self id P ev wA.
Proof.
  intros HL Hold.
  assert (Hk : Forall (newer P) [(self, OfRequest id P)]).
  { repeat constructor. exists P. split; [reflexivity | lia]. }
  exists (foldl (call_listener self ev) w
            (filter (λ r, r.1 = self) L).*2).
  split.
  - exact (fold_older P _ self ev _ Hk (listening_older P self _ Hold)
             w L HL Hold).
  - rewrite (dispatch_split self ev w L _ HL).
    now rewrite filter_cons_True by reflexivity.
Qed.

Lemma dispatch_elsewhere (P : nat) (self t : window) (id : string)
    (ev : MessageEvent) (w : World) (L : list (window * listener)) :
  t ≠ self →
  listeners w = (L ++ [(self, OfRequest id P)])%list → Forall (older P) L →
  framed P [(self, OfRequest id P)] w (dispatch t ev w).
Proof.
  intros Ht HL Hold.
  assert (Hk : Forall (newer P) [(self, OfRequest id P)]).
  { repeat constructor. exists P. split; [reflexivity | lia]. }
  rewrite (dispatch_split t ev w L _ HL).
  rewrite filter_cons_False by (simpl; congruence).
  exact (fold_older P _ t ev _ Hk (listening_older P t _ Hold) w L HL Hold).
Qed.

Lemma awaiting_request (self : window) (c : Client) (m : string)
    (a : list val) (w : World) :
  well_formed w →
  (request self c m a w).1 = length (promises w) ∧
  awaiting (length (promises w)) self (uuid w (generated w))
    (request self c m a w).2.
Proof.
  intros Hwf.
  destruct (request_spec self c m a w) as (Hp & Hl & Hs & _).
  split; [exact Hp |]. split.
  - exists (listeners w). split; [exact Hl | exact Hwf].
  - rewrite Hs, lookup_app_r by lia. now rewrite Nat.sub_diag.
Qed.

Lemma awaiting_dispatch (P : nat) (self : window) (id : string)
    (t : window) (ev : MessageEvent) (w : World) :
  (t = self → ∀ ret, ¬ answers id ev ret) →
  awaiting P self id w → awaiting P self id (dispatch t ev w).
Proof.
  intros Hno ((L & HL & Hold) & Hpend).
  destruct (decide (t = self)) as [-> | Ht].
  - destruct (dispatch_pending_call P self id ev w L HL Hold)
      as (wA & (HLA & _ & Hps) & ->).
    destruct (responseListener_unanswered self id P ev wA (Hno eq_refl))
      as [Hsame Hkept].
    unfold awaiting. rewrite Hsame, Hkept.
    split; [exact HLA |]. now rewrite Hps by lia.
  - destruct (dispatch_elsewhere P self t id ev w L Ht HL Hold)
      as (HLA & _ & Hps).
    split; [exact HLA |]. now rewrite Hps by lia.
Qed.

Lemma awaiting_deliver (P : nat) (self : window) (id : string)
    (evs : list (window * MessageEvent)) (w : World) :
  Forall (λ te, te.1 = self → ∀ ret, ¬ answers id te.2 ret) evs →
  awaiting P self id w → awaiting P self id (deliver evs w).
Proof.
  intros H. revert w. induction H as [| [t ev] evs Hte _ IH]; intros w Hw.
  - exact Hw.
  - apply IH. now apply awaiting_dispatch.
Qed.

(** X10: a call stays pending, with its listener registered, for as long as
    the messages that arrive are not an answer to it: messages for other
    windows, payloads of other protocols, requests, responses to other
    calls.  The listener is never dropped by mistake. *)
Theorem pending_until_answered (w : World) (self : window) (c : Client)
    (m : string) (a : list val) (evs : list (window * MessageEvent)) :
  well_formed w →
  let call := request self c m a w in
  let id := uuid w (generated w) in
  Forall (λ te, te.1 = self → ∀ ret, ¬ answers id te.2 ret) evs →
  promises (deliver evs call.2) !! call.1 = Some None ∧
  (self, OfRequest id call.1) ∈ listeners (deliver evs call.2).
Proof.
  intros Hwf call id Hevs.
  destruct (awaiting_request self c m a w Hwf) as [Hp Hw].
  fold call in Hp, Hw. fold id in Hw. rewrite Hp.
  destruct (awaiting_deliver _ self id evs call.2 Hevs Hw)
    as ((L & HL & _) & Hpend).
  split; [exact Hpend |]. rewrite HL. set_solver.
Qed.

Lemma pending_until_answered_witness :
  let server := mkServer WinC "https://app.example" (spy 0 echo) in
  let w := boot "https://app.example" "https://idp.example" pretty server in
  let call := request WinC (mkClient WinS "https://idp.example") "echo" [] w in
  let evs :=
    [(WinC, mkEvent (response (VStr "5") (VNum 1)) "https://idp.example");
     (WinC, mkEvent (VStr "hello") "https://ads.example");
     (WinS, mkEvent (response (VStr "0") (VNum 2)) "https://idp.example")] in
  promises (deliver evs call.2) !! call.1 = Some None.
Proof.
  intros server w call evs.
  refine (proj1 (pending_until_answered w WinC
    (mkClient WinS "https://idp.example") "echo" [] evs
    (well_formed_boot _ _ _ _) _)).
  repeat constructor; simpl; try discriminate;
    intros _ ret (resp & Hns & Hid & _); vm_compute in Hns;
    try discriminate Hns.
  injection Hns as <-. vm_compute in Hid. discriminate Hid.
Defined.

Lemma absent_handle_not_closure (t : window) (p : nat)
    (L : list (window * listener)) :
  Forall (λ x, handle_of x ≠ Some p) L →
  Forall (λ x, is_closure t p x = false) L.
Proof.
  intros HL. eapply Forall_impl; [exact HL |].
  intros [t' [s | id q]] H; [reflexivity |].
  simpl in *. apply bool_decide_eq_false_2. intros [_ ->]. now apply H.
Qed.

(** A delivery only ever removes listeners. *)
Lemma dispatch_keeps_only (Q : window * listener → Prop) (t : window)
    (ev : MessageEvent) (w : World) :
  Forall Q (listeners w) → Forall Q (listeners (dispatch t ev w)).
Proof.
  unfold dispatch. generalize (listening t w) as ls. intros ls. revert w.
  induction ls as [| l ls IH]; intros w H; [exact H |].
  simpl. apply IH. destruct l as [s | id q]; unfold call_listener.
  - now destruct (perform_flow_frame t (_handleMessage s ev) w) as [-> _].
  - destruct (responseListener_cases t id q ev w)
      as [-> | [(e & ->) | (v & ->)]]; try exact H.
    rewrite listeners_remove. apply Forall_kept.
    now destruct (resolve_frame q v w) as (-> & _).
Qed.

Lemma absent_handle_deliver (p : nat) (evs : list (window * MessageEvent))
    (w : World) :
  Forall (λ x, handle_of x ≠ Some p) (listeners w) →
  promises (deliver evs w) !! p = promises w !! p.
Proof.
  revert w. induction evs as [| [t ev] evs IH]; intros w H; [reflexivity |].
  simpl. rewrite IH by now apply dispatch_keeps_only.
  apply unregistered_promise_untouched. now apply absent_handle_not_closure.
Qed.

Lemma awaiting_answered (P : nat) (self : window) (id : string) (r : val)
    (o : string) (w : World) :
  awaiting P self id w →
  let w' := dispatch self (mkEvent (response (VStr id) r) o) w in
  promises w' !! P = Some (Some r) ∧
  Forall (λ x, handle_of x ≠ Some P) (listeners w').
Proof.
  intros ((L & HL & Hold) & Hpend) w'. unfold w'.
  destruct (dispatch_pending_call P self id
              (mkEvent (response (VStr id) r) o) w L HL Hold)
    as (wA & ((L' & HLA & Hold') & _ & Hps) & ->).
  rewrite responseListener_response. split.
  - rewrite promises_remove. apply resolve_pending. now rewrite Hps by lia.
  - rewrite listeners_remove.
    destruct (resolve_frame P r wA) as (-> & _). rewrite HLA, filter_app.
    apply Forall_app. split.
    + apply Forall_kept. eapply Forall_impl; [exact Hold' |].
      intros x Hx E. specialize (Hx P E). lia.
    + rewrite filter_cons_False; [constructor |].
      simpl. rewrite bool_decide_eq_true_2 by auto. discriminate.
Qed.

(** X11: The Client does not look at where a message comes from.  After any
    traffic that is not an answer to the call, a response carrying the
    call's id resolves the promise with its [ret], whatever origin it
    declares, and the call's listener is unregistered. *)
Theorem answered_from_any_origin (w : World) (self : window) (c : Client)
    (m : string) (a : list val) (evs : list (window * MessageEvent))
    (r : val) (o : string) :
  well_formed w →
  let call := request self c m a w in
  let id := uuid w (generated w) in
  Forall (λ te, te.1 = self → ∀ ret, ¬ answers id te.2 ret) evs →
  let w' := dispatch self (mkEvent (response (VStr id) r) o)
              (deliver evs call.2) in
  promises w' !! call.1 = Some (Some r) ∧
  Forall (λ x, handle_of x ≠ Some call.1) (listeners w').
Proof.
  intros Hwf call id Hevs.
  destruct (awaiting_request self c m a w Hwf) as [Hp Hw].
  fold call in Hp, Hw. fold id in Hw. rewrite Hp.
  apply awaiting_answered. now apply awaiting_deliver.
Qed.

Lemma answered_from_any_origin_witness :
  let server := mkServer WinC "https://app.example" (spy 0 echo) in
  let w := boot "https://app.example" "https://idp.example" pretty server in
  let call := request WinC (mkClient WinS "https://idp.example") "echo" [] w in
  let w' := dispatch WinC
              (mkEvent (response (VStr "0") (VStr "forged"))
                 "https://evil.example") call.2 in
  promises w' !! call.1 = Some (Some (VStr "forged")).
Proof.
  intros server w call w'.
  refine (proj1 (answered_from_any_origin w WinC
    (mkClient WinS "https://idp.example") "echo" [] [] (VStr "forged")
    "https://evil.example" (well_formed_boot _ _ _ _) _)).
  constructor.
Defined.

(** X12: The first answer is final: once a response has resolved the call,
    nothing that is delivered later, to any window, changes the promise;
    a second response with the same id and another [ret] is ignored. *)
Theorem first_answer_final (w : World) (self : window) (c : Client)
    (m : string) (a : list val) (r : val) (o : string)
    (later : list (window * MessageEvent)) :
  well_formed w →
  let call := request self c m a w in
  let id := uuid w (generated w) in
  let w' := dispatch self (mkEvent (response (VStr id) r) o) call.2 in
  promises (deliver later w') !! call.1 = Some (Some r).
Proof.
  intros Hwf call id w'.
  destruct (awaiting_request self c m a w Hwf) as [Hp Hw].
  fold call in Hp, Hw. fold id in Hw. rewrite Hp.
  destruct (awaiting_answered _ self id r o call.2 Hw) as [Hr Hgone].
  fold w' in Hr, Hgone.
  now rewrite (absent_handle_deliver _ later w' Hgone).
Qed.

Lemma first_answer_final_witness :
  let server := mkServer WinC "https://app.example" (spy 0 echo) in
  let w := boot "https://app.example" "https://idp.example" pretty server in
  let call := request WinC (mkClient WinS "https://idp.example") "echo" [] w in
  let w' := dispatch WinC
              (mkEvent (response (VStr "0") (VNum 1)) "https://idp.example")
              call.2 in
  promises
    (deliver
       [(WinC, mkEvent (response (VStr "0") (VNum 2)) "https://idp.example")]
       w') !! call.1 = Some (Some (VNum 1)).
Proof.
  intros server w call w'.
  exact (first_answer_final w WinC (mkClient WinS "https://idp.example")
           "echo" [] (VNum 1) "https://idp.example"
           [(WinC, mkEvent (response (VStr "0") (VNum 2))
                     "https://idp.example")]
           (well_formed_boot _ _ _ _)).
Defined.

(** ** Client and Server in one window *)

(** A request is no answer, not even under the id the listener waits
    for: it owns no [ret]. *)
Lemma responseListener_request (self : window) (id id' : string) (p : nat)
    (method : string) (args : list val) (o : string) (w : World) :
  responseListener self id p
    (mkEvent (request_envelope id' method args) o) w = w.
Proof.
  unfold responseListener. cbn [data].
  rewrite (js_and_own (request_envelope id' method args) NAMESPACE
             (request_fields id' method args) eq_refl).
  change (hasOwnProperty (request_fields id' method args) "ret")
    with (@inr exn bool false).
  now destruct (truthy _ && strict_eq_str _ id).
Qed.

(** X13: With the Server started in the Client's own window, the Client's
    listener also receives the Client's request, under the call's own id:
    having no [ret], it is not taken for the answer.  The Server answers,
    ignores its own response, and the call resolves with the handler's
    value. *)
Theorem same_window_roundtrip (origin0 : string) (ids : nat → string)
    (h : nat) (f : behaviour) (method : string) (args : list val)
    (r : hval) (v : val) :
  method ≠ "" →
  f (VStr method) args = Normal r →
  r = Plain v ∨ r = Promise (Fulfilled v) →
  let server := mkServer WinC origin0 (spy h f) in
  let w := start WinC server
             (mkWorld (λ _, origin0) ids 0 [] [] [] []) in
  let call := request WinC (mkClient WinC origin0) method args w in
  promises (run 1 call.2) !! call.1 = Some None ∧
  promises (run 2 call.2) !! call.1 = Some (Some v) ∧
  trace (run 2 call.2) =
    [PostMessage WinC (request_envelope (ids 0) method args) origin0;
     Invoke h (VStr method) args;
     PostMessage WinC (response (VStr (ids 0)) v) origin0] ∧
  tasks (run 2 call.2) = [].
Proof.
  intros Hm Hf Hr server w call.
  set (env := request_envelope (ids 0) method args).
  set (waiting := [(WinC, OfServer server); (WinC, OfRequest (ids 0) 0)]).
  assert (E0 : call = (0, mkWorld (λ _, origin0) ids 1 waiting
                            [(WinC, mkEvent env origin0)] [None]
                            [PostMessage WinC env origin0])).
  { unfold call, request, postMessage. simpl.
    now rewrite bool_decide_eq_true_2 by (now right). }
  assert (Hflow : _handleMessage server (mkEvent env origin0) =
                  ([Invoke h (VStr method) args;
                    PostMessage WinC (response (VStr (ids 0)) v) origin0],
                   Returned tt)).
  { pose proof (handleMessage_envelope server (ids 0) method args Hm) as H.
    change (_clientOrigin server) with origin0 in H.
    change (_handler server) with (spy h f) in H.
    fold env in H. rewrite H, (spy_returns _ _ _ _ _ Hf), bind_effects.
    rewrite (await_value _ _ Hr), bind_ret_l. reflexivity. }
  assert (Hignored : ∀ w1, responseListener WinC (ids 0) 0
                             (mkEvent env origin0) w1 = w1).
  { intros w1. apply responseListener_request. }
  assert (E1 : step call.2 =
               mkWorld (λ _, origin0) ids 1 waiting
                 [(WinC, mkEvent (response (VStr (ids 0)) v) origin0)] [None]
                 [PostMessage WinC env origin0;
                  Invoke h (VStr method) args;
                  PostMessage WinC (response (VStr (ids 0)) v) origin0]).
  { rewrite E0.
    change (step _) with
      (responseListener WinC (ids 0) 0 (mkEvent env origin0)
         (perform_flow WinC (_handleMessage server (mkEvent env origin0))
            (mkWorld (λ _, origin0) ids 1 waiting [] [None]
               [PostMessage WinC env origin0]))).
    rewrite Hignored, Hflow. unfold perform_flow. cbn [fst snd foldl perform].
    unfold postMessage. simpl.
    now rewrite bool_decide_eq_true_2 by (now right). }
  assert (Hresp : _handleMessage server
                    (mkEvent (response (VStr (ids 0)) v) origin0) = mret tt).
  { apply handleMessage_not_a_request; [reflexivity |].
    right. eexists. split; reflexivity. }
  assert (E2 : step (step call.2) =
               mkWorld (λ _, origin0) ids 1 [(WinC, OfServer server)] [] [Some v]
                 [PostMessage WinC env origin0;
                  Invoke h (VStr method) args;
                  PostMessage WinC (response (VStr (ids 0)) v) origin0]).
  { rewrite E1.
    change (step _) with
      (responseListener WinC (ids 0) 0
         (mkEvent (response (VStr (ids 0)) v) origin0)
         (perform_flow WinC
            (_handleMessage server
               (mkEvent (response (VStr (ids 0)) v) origin0))
            (mkWorld (λ _, origin0) ids 1 waiting [] [None]
               [PostMessage WinC env origin0;
                Invoke h (VStr method) args;
                PostMessage WinC (response (VStr (ids 0)) v) origin0]))).
    rewrite Hresp, responseListener_response. reflexivity. }
  change (run 1 call.2) with (step call.2).
  change (run 2 call.2) with (step (step call.2)).
  rewrite E2, E1, E0. repeat split.
Qed.

Lemma same_window_roundtrip_witness :
  let server := mkServer WinC "https://app.example" (spy 0 echo) in
  let w := start WinC server
             (mkWorld (λ _, "https://app.example") pretty 0 [] [] [] []) in
  let call := request WinC (mkClient WinC "https://app.example") "echo"
                [VNum 1] w in
  promises (run 2 call.2) !! call.1 = Some (Some (VArr [VNum 1])).
Proof.
  intros server w call.
  refine (proj1 (proj2 (same_window_roundtrip "https://app.example" pretty
    0 echo "echo" [VNum 1] _ (VArr [VNum 1]) _ eq_refl _))).
  - discriminate.
  - now right.
Defined.

(** ** Why the ids must be unique *)

(** X14: When the id generator returns the same id for two calls that are in
    flight together, one response resolves both of them with the same
    [ret]: nothing but the id tells the calls apart. *)
Theorem colliding_ids_cross_talk (w : World) (self : window)
    (c1 c2 : Client) (m1 m2 : string) (a1 a2 : list val) (r : val)
    (o : string) :
  well_formed w →
  let call1 := request self c1 m1 a1 w in
  let call2 := request self c2 m2 a2 call1.2 in
  let id := uuid w (generated w) in
  uuid w (S (generated w)) = id →
  let w' := dispatch self (mkEvent (response (VStr id) r) o) call2.2 in
  call1.1 ≠ call2.1 ∧
  promises w' !! call1.1 = Some (Some r) ∧
  promises w' !! call2.1 = Some (Some r).
Proof.
  intros Hwf call1 call2 id Hid w'.
  destruct (request_spec self c1 m1 a1 w) as (Hp1 & Hl1 & Hs1 & Hu1 & Hg1 & _).
  fold call1 in Hp1, Hl1, Hs1, Hu1, Hg1. fold id in Hl1.
  destruct (request_spec self c2 m2 a2 call1.2) as (Hp2 & Hl2 & Hs2 & _).
  fold call2 in Hp2, Hl2, Hs2.
  rewrite Hu1, Hg1, Hid in Hl2.
  set (P := length (promises w)) in *.
  assert (HP2 : call2.1 = S P).
  { rewrite Hp2, Hs1, length_app. simpl. lia. }
  rewrite Hs1 in Hs2. rewrite <- app_assoc in Hs2. cbn [app] in Hs2.
  rewrite Hl1 in Hl2. rewrite <- app_assoc in Hl2. cbn [app] in Hl2.
  rewrite Hs1, length_app in Hl2. cbn [length] in Hl2.
  replace (length (promises w) + 1) with (S P) in Hl2 by (unfold P; lia).
  rewrite Hp1, HP2. split; [lia |].
  set (k1 := (self, OfRequest id P)) in *.
  set (k2 := (self, OfRequest id (S P))) in *.
  assert (Hk1 : newer P k1) by (exists P; split; [reflexivity | lia]).
  assert (Hk2 : newer P k2) by (exists (S P); split; [reflexivity | lia]).
  assert (Hpend : promises call2.2 !! P = Some None ∧
                  promises call2.2 !! S P = Some None).
  { rewrite Hs2. split.
    - rewrite lookup_app_r by (unfold P; lia).
      now replace (P - length (promises w)) with 0 by (unfold P; lia).
    - rewrite lookup_app_r by (unfold P; lia).
      now replace (S P - length (promises w)) with 1 by (unfold P; lia). }
  unfold w'.
  rewrite (dispatch_split self _ call2.2 (listeners w) [k1; k2] Hl2).
  destruct (fold_older P [k1; k2] self (mkEvent (response (VStr id) r) o)
              (filter (λ x, x.1 = self) (listeners w)).*2
              ltac:(auto) (listening_older P self _ Hwf)
              call2.2 (listeners w) Hl2 Hwf)
    as (_ & _ & Hps).
  set (wA := foldl _ call2.2 _) in *.
  unfold k1, k2. rewrite !filter_cons_True by reflexivity.
  cbn [filter list_filter fmap list_fmap snd foldl call_listener].
  rewrite !responseListener_response.
  destruct Hpend as [Hpend1 Hpend2].
  rewrite <- (Hps P) in Hpend1 by lia.
  rewrite <- (Hps (S P)) in Hpend2 by lia.
  set (w1 := removeEventListener self P (resolve P r wA)).
  assert (H1 : promises w1 !! P = Some (Some r)).
  { unfold w1. rewrite promises_remove. now apply resolve_pending. }
  assert (H2 : promises w1 !! S P = Some None).
  { unfold w1. rewrite promises_remove.
    destruct (resolve_frame P r wA) as (_ & _ & Hother).
    now rewrite Hother by lia. }
  rewrite promises_remove. split.
  - destruct (resolve_frame (S P) r w1) as (_ & _ & Hother).
    now rewrite Hother by lia.
  - now apply resolve_pending.
Qed.

Lemma colliding_ids_cross_talk_witness :
  let server := mkServer WinC "https://app.example" (spy 0 echo) in
  let w := boot "https://app.example" "https://idp.example" (λ _, "same")
             server in
  let c := mkClient WinS "https://idp.example" in
  let call1 := request WinC c "one" [] w in
  let call2 := request WinC c "two" [] call1.2 in
  let w' := dispatch WinC
              (mkEvent (response (VStr "same") (VNum 1)) "https://idp.example")
              call2.2 in
  promises w' !! call1.1 = Some (Some (VNum 1)) ∧
  promises w' !! call2.1 = Some (Some (VNum 1)).
Proof.
  intros server w c call1 call2 w'.
  exact (proj2 (colliding_ids_cross_talk w WinC c c "one" "two" [] []
                  (VNum 1) "https://idp.example"
                  (well_formed_boot _ _ _ _) eq_refl)).
Defined.
